(** * The tool engine of the pixel-art editor (src/tools/tools.ts)

    A shallow embedding of the drawing tools: points, colours, the canvas
    and its 2D context are records; every tool is a function from the
    point sequence and the canvases to the canvas it leaves behind.
    Accessing a missing array element ([points[0]] on an empty sequence)
    raises a TypeError in the source and is [None] here. *)

From Stdlib Require Import ZArith NArith List String Ascii Bool Lia Arith.
From Stdlib Require Import Hexadecimal HexadecimalString.
From Stdlib.Strings Require Import Byte.
Import ListNotations.
Local Open Scope Z_scope.

(** ** Points *)

(** [Point] of utils/canvas: integer pixel coordinates. *)
Record Point : Set := mkPoint { x : Z; y : Z }.

Definition Point_eqb (p q : Point) : bool :=
  (x p =? x q) && (y p =? y q).

(** JavaScript array indexing: [points[i]] is [undefined] out of range. *)
Definition item {A : Type} (l : list A) (i : Z) : option A :=
  if i <? 0 then None else nth_error l (Z.to_nat i).

Definition len {A : Type} (l : list A) : Z := Z.of_nat (List.length l).

(** ** Colours *)

(** The four channels of a pixel as [getImageData] returns them
    (a Uint8ClampedArray of length four). *)
Record Colord : Set := rgba { red : byte; green : byte; blue : byte; alpha : byte }.

(** Modelled from the spec: [Colord.isEqual] of the colord package, "a color
    value with red/green/blue/alpha channels, equality comparable". *)
Definition isEqual (c d : Colord) : bool :=
  Byte.eqb (red c) (red d) && Byte.eqb (green c) (green d)
  && Byte.eqb (blue c) (blue d) && Byte.eqb (alpha c) (alpha d).

Definition transparentBlack : Colord := rgba x00 x00 x00 x00.

(** ** The canvas and its 2D context *)

Record HTMLCanvasElement : Type := mkCanvas {
  width : Z;
  height : Z;
  pixels : Point -> Colord
}.

(** The part of the context state the tools touch: the fill style (a CSS
    colour string, [type Color = string] in the source) and the current
    translation. *)
Record CanvasRenderingContext2D : Type := mkCtx {
  canvas : HTMLCanvasElement;
  fillStyle : string;
  translation : Point
}.

(** The shared drawing configuration read through [useToolboxState.getState()]. *)
Record ToolboxState : Set := mkToolbox {
  fgColor : string;
  bgColor : string;
  brushSize : Z
}.

Definition setFgColor (c : string) (s : ToolboxState) : ToolboxState :=
  mkToolbox c (bgColor s) (brushSize s).

Definition inBounds (c : HTMLCanvasElement) (p : Point) : bool :=
  (0 <=? x p) && (x p <? width c) && (0 <=? y p) && (y p <? height c).

(** [canvas.getContext("2d")]. Every tool that moves the origin resets it
    before it returns and every tool sets the fill style before it paints,
    so the context starts at the identity transform. *)
Definition getContext (c : HTMLCanvasElement) : CanvasRenderingContext2D :=
  mkCtx c "#000000" (mkPoint 0 0).

(** The pixels a rectangle [(ox, oy, w, h)] covers; a negative width or
    height extends the rectangle in the negative direction. *)
Definition covers (ox oy w h : Z) (p : Point) : bool :=
  (Z.min ox (ox + w) <=? x p) && (x p <? Z.max ox (ox + w))
  && (Z.min oy (oy + h) <=? y p) && (y p <? Z.max oy (oy + h)).

Definition setPixels (f : Point -> Colord) (ctx : CanvasRenderingContext2D)
  : CanvasRenderingContext2D :=
  mkCtx (mkCanvas (width (canvas ctx)) (height (canvas ctx)) f)
        (fillStyle ctx) (translation ctx).

Definition setFillStyle (s : string) (ctx : CanvasRenderingContext2D)
  : CanvasRenderingContext2D :=
  mkCtx (canvas ctx) s (translation ctx).

Definition translate (dx dy : Z) (ctx : CanvasRenderingContext2D)
  : CanvasRenderingContext2D :=
  mkCtx (canvas ctx) (fillStyle ctx)
        (mkPoint (x (translation ctx) + dx) (y (translation ctx) + dy)).

Definition resetTransform (ctx : CanvasRenderingContext2D)
  : CanvasRenderingContext2D :=
  mkCtx (canvas ctx) (fillStyle ctx) (mkPoint 0 0).

(** [ctx.clearRect]: the covered pixels of the surface become transparent
    black. *)
Definition clearRect (ox oy w h : Z) (ctx : CanvasRenderingContext2D)
  : CanvasRenderingContext2D :=
  let t := translation ctx in
  setPixels (fun p =>
    if inBounds (canvas ctx) p && covers (ox + x t) (oy + y t) w h p
    then transparentBlack else pixels (canvas ctx) p) ctx.

(** [ctx.getImageData(px, py, 1, 1).data]: outside the surface the data is
    transparent black. *)
Definition getImageData (px py : Z) (ctx : CanvasRenderingContext2D) : Colord :=
  if inBounds (canvas ctx) (mkPoint px py)
  then pixels (canvas ctx) (mkPoint px py) else transparentBlack.

(** [ctx.drawImage(source, dx, dy)] onto a cleared surface, the only use
    the tools make of it: the source surface is copied with its origin at
    [(dx, dy)] of the current coordinate system, clipped to both
    surfaces. *)
Definition drawImage (source : HTMLCanvasElement) (dx dy : Z)
  (ctx : CanvasRenderingContext2D) : CanvasRenderingContext2D :=
  let t := translation ctx in
  setPixels (fun p =>
    let q := mkPoint (x p - (dx + x t)) (y p - (dy + y t)) in
    if inBounds (canvas ctx) p && inBounds source q
    then pixels source q else pixels (canvas ctx) p) ctx.

(** ** Geometry helpers *)

Definition min4 (a b c d : Z) : Z := Z.min (Z.min a b) (Z.min c d).
Definition max4 (a b c d : Z) : Z := Z.max (Z.max a b) (Z.max c d).

Definition getBoundingBoxIncludingBrush (points : list Point) (brushSize : Z)
  : option (Point * Point) :=
  match item points 0, item points (len points - 1) with
  | Some startPoint, Some endPoint =>
      let startX := min4 (x startPoint) (x startPoint - brushSize + 1)
                         (x endPoint) (x endPoint - brushSize + 1) in
      let endX := max4 (x startPoint) (x startPoint - brushSize + 1)
                       (x endPoint) (x endPoint - brushSize + 1) in
      let startY := min4 (y startPoint) (y startPoint - brushSize + 1)
                         (y endPoint) (y endPoint - brushSize + 1) in
      let endY := max4 (y startPoint) (y startPoint - brushSize + 1)
                       (y endPoint) (y endPoint - brushSize + 1) in
      Some (mkPoint startX startY, mkPoint endX endY)
  | _, _ => None
  end.

Record Box : Set := mkBox { x0 : Z; y0 : Z; x1 : Z; y1 : Z }.

Definition getBoundingBox (points : list Point) : option Box :=
  match item points 0, item points (len points - 1) with
  | Some startPoint, Some endPoint =>
      Some (mkBox (min4 (x startPoint) (x startPoint) (x endPoint) (x endPoint))
                  (min4 (y startPoint) (y startPoint) (y endPoint) (y endPoint))
                  (max4 (x startPoint) (x startPoint) (x endPoint) (x endPoint))
                  (max4 (y startPoint) (y startPoint) (y endPoint) (y endPoint)))
  | _, _ => None
  end.

(** The integers [lo, lo+1, ..., hi] of a [for (i = lo; i <= hi; i++)] loop. *)
Definition upto (lo hi : Z) : list Z :=
  map (fun k => lo + Z.of_nat k) (seq 0 (Z.to_nat (hi - lo + 1))).

(** ** Hexadecimal text of a channel *)

(** [i.toString(16)] for a channel value: lower-case digits, no padding. *)
Definition toString16 (i : byte) : string :=
  NilEmpty.string_of_uint (N.to_hex_uint (Byte.to_N i)).

Fixpoint repeatChar (c : ascii) (n : nat) : string :=
  match n with
  | O => EmptyString
  | S n' => String c (repeatChar c n')
  end.

(** [s.padStart(n, c)] for a one-character pad [c]. *)
Definition padStart (n : nat) (c : ascii) (s : string) : string :=
  (repeatChar c (n - String.length s) ++ s)%string.

(** The text the spec asks for: two hexadecimal digits, high nibble first. *)
Definition hexDigit (n : N) : ascii :=
  match n with
  | 0%N => "0" | 1%N => "1" | 2%N => "2" | 3%N => "3" | 4%N => "4"
  | 5%N => "5" | 6%N => "6" | 7%N => "7" | 8%N => "8" | 9%N => "9"
  | 10%N => "a" | 11%N => "b" | 12%N => "c" | 13%N => "d" | 14%N => "e"
  | _ => "f"
  end%char.

Definition twoHexDigits (i : byte) : string :=
  String (hexDigit (Byte.to_N i / 16)) (String (hexDigit (Byte.to_N i mod 16)) EmptyString).

(** ** The instrumented run of the flood fill *)

(** One comparison the flood fill makes at a pixel inside the surface: the
    colour it read there and the colour it was asked to look for. *)
Record Visit : Set := mkVisit {
  place : Point;
  seen : Colord;
  wanted : option Colord
}.

Definition matched (v : Visit) : bool :=
  match wanted v with
  | Some sc => isEqual (seen v) sc
  | None => true
  end.

(** What a (possibly cut short) run leaves behind: the context, the
    comparisons made so far, and whether the call returned. A run that
    exhausts the call stack (RangeError) keeps the pixels it has written. *)
Record FillRun : Type := mkRun {
  final : CanvasRenderingContext2D;
  visits : list Visit;
  returned : bool
}.

Definition andThen (r : FillRun) (k : CanvasRenderingContext2D -> FillRun)
  : FillRun :=
  if returned r
  then let r' := k (final r) in
       mkRun (final r') (visits r ++ visits r') (returned r')
  else r.

Notation "r ;; k" := (andThen r k) (at level 61, left associativity).

(** The pixels a run has repainted, in order. *)
Definition painted (r : FillRun) : list Point :=
  map place (filter matched (visits r)).

(** A call to [drawLine] of utils/canvas, whose body is not part of the
    tools module: the tools are described by the calls they make. *)
Record drawLineCall : Set := drawLine {
  from : option Point;
  to : option Point;
  lineColor : string;
  lineWidth : Z
}.

Section Tools.

(** The browser's parser of CSS colour strings: what a cleared pixel
    painted with a given fill style reads back as. *)
Variable parseColor : string -> Colord.

(** The browser's source-over compositing of a fill style onto a pixel
    that already holds paint: the pixel that results. *)
Variable blend : string -> Colord -> Colord.

(** The floating-point annulus test of [ellipse] (fill flag, brush size,
    outer radii, inner radii, quadrant offsets), kept abstract. *)
Variable annulusTest : bool -> Z -> Z -> Z -> Z -> Z -> Z -> Z -> bool.

(** Painting a fill style over a pixel: a cleared pixel reads back as the
    style itself, any other pixel is composited with it. *)
Definition paintOver (style : string) (under : Colord) : Colord :=
  if isEqual under transparentBlack then parseColor style
  else blend style under.

(** [ctx.fillRect]: the fill style is painted over each covered pixel of
    the surface (the default composite operation, source-over). *)
Definition fillRect (ox oy w h : Z) (ctx : CanvasRenderingContext2D)
  : CanvasRenderingContext2D :=
  let t := translation ctx in
  setPixels (fun p =>
    if inBounds (canvas ctx) p && covers (ox + x t) (oy + y t) w h p
    then paintOver (fillStyle ctx) (pixels (canvas ctx) p)
    else pixels (canvas ctx) p) ctx.

(** Modelled from the spec: [paintPixel] of utils/canvas, "paint a single
    pixel" with the current fill style. *)
Definition paintPixel (point : Point) (ctx : CanvasRenderingContext2D)
  : CanvasRenderingContext2D :=
  fillRect (x point) (y point) 1 1 ctx.

(** Modelled from the spec: [erasePixel] of utils/canvas, "erase a single
    pixel". *)
Definition erasePixel (point : Point) (ctx : CanvasRenderingContext2D)
  : CanvasRenderingContext2D :=
  clearRect (x point) (y point) 1 1 ctx.

(** Modelled from the spec: [getPixelColor] of utils/colors, "read a single
    pixel". *)
Definition getPixelColor (point : Point) (ctx : CanvasRenderingContext2D)
  : Colord :=
  getImageData (x point) (y point) ctx.

Definition inCanvas (point : Point) (ctx : CanvasRenderingContext2D) : bool :=
  (x point >=? 0) && (x point <? width (canvas ctx))
  && (y point >=? 0) && (y point <? height (canvas ctx)).

(** [floodFill]; [stack] is the depth of calls the engine still allows. *)
Fixpoint floodFill (stack : nat) (ctx : CanvasRenderingContext2D)
  (point : Point) (searchColor : option Colord) : FillRun :=
  match stack with
  | O => mkRun ctx [] false
  | S stack' =>
      if negb (inCanvas point ctx) then mkRun ctx [] true
      else
        let color := getPixelColor point ctx in
        if match searchColor with
           | Some sc => negb (isEqual color sc)
           | None => false
           end
        then mkRun ctx [mkVisit point color searchColor] true
        else
          mkRun (paintPixel point (erasePixel point ctx))
                [mkVisit point color searchColor] true
          ;; (fun c => floodFill stack' c (mkPoint (x point - 1) (y point)) (Some color))
          ;; (fun c => floodFill stack' c (mkPoint (x point + 1) (y point)) (Some color))
          ;; (fun c => floodFill stack' c (mkPoint (x point) (y point - 1)) (Some color))
          ;; (fun c => floodFill stack' c (mkPoint (x point) (y point + 1)) (Some color))
  end.

(** *** The tools *)

Definition Pen_use (st : ToolboxState) (points : list Point) : list drawLineCall :=
  map (fun i => drawLine (item points (if i =? 0 then 0 else i - 1)) (item points i)
                         (fgColor st) (brushSize st))
      (upto 0 (len points - 1)).

Definition Move_use (points : list Point)
  (workingCanvas originalCanvas : HTMLCanvasElement) : option HTMLCanvasElement :=
  let ctx := getContext workingCanvas in
  match item points 0, item points (len points - 1) with
  | Some startPoint, Some lastPoint =>
      let xOffset := x lastPoint - x startPoint in
      let yOffset := y lastPoint - y startPoint in
      let ctx := clearRect 0 0 (width workingCanvas) (height workingCanvas) ctx in
      let ctx := translate xOffset yOffset ctx in
      let ctx := drawImage originalCanvas 0 0 ctx in
      let ctx := resetTransform ctx in
      Some (canvas ctx)
  | _, _ => None
  end.

Definition Line_use (st : ToolboxState) (points : list Point) : list drawLineCall :=
  [drawLine (item points (if len points >? 1 then 1 else 0))
            (item points (Z.max 0 (len points - 2)))
            (fgColor st) (brushSize st)].

(** The five [fillRect] calls of the Rectangle tool, each with the fill
    style in force: (style, x, y, width, height). *)
Definition Rectangle_fills (st : ToolboxState) (points : list Point)
  : option (list (string * (Z * Z * Z * Z))) :=
  match getBoundingBoxIncludingBrush points (brushSize st) with
  | Some (start, end_) =>
      let width_ := x end_ - x start + 1 in
      let height_ := y end_ - y start + 1 in
      Some [ (bgColor st, (x start, y start, width_, height_));
             (fgColor st, (x start, y start, width_, brushSize st));
             (fgColor st, (x end_ + 1, y end_ + 1, - width_, - brushSize st));
             (fgColor st, (x start, y start, brushSize st, height_));
             (fgColor st, (x end_ + 1, y end_ + 1, - brushSize st, - height_)) ]
  | None => None
  end.

Definition styledFill (ctx : CanvasRenderingContext2D)
  (f : string * (Z * Z * Z * Z)) : CanvasRenderingContext2D :=
  let '(style, (ox, oy, w, h)) := f in
  fillRect ox oy w h (setFillStyle style ctx).

Definition Rectangle_use (st : ToolboxState) (points : list Point)
  (canvas_ : HTMLCanvasElement) : option HTMLCanvasElement :=
  match Rectangle_fills st points with
  | Some fills => Some (canvas (fold_left styledFill fills (getContext canvas_)))
  | None => None
  end.

(** The origins of the 1x1 [fillRect] calls of one pass of [ellipse], in
    the order the two nested loops make them. *)
Definition ellipse (points : list Point) (brushSize : Z) (fill : bool)
  : option (list Point) :=
  match getBoundingBox points with
  | Some coords =>
      let xC := (x0 coords + x1 coords + 1) / 2 in
      let yC := (y0 coords + y1 coords + 1) / 2 in
      let evenX := Z.rem (x0 coords + x1 coords) 2 in
      let evenY := Z.rem (y0 coords + y1 coords) 2 in
      let rX := x1 coords - xC in
      let rY := y1 coords - yC in
      let iX := if fill then 0 else Z.max (rX - brushSize) 0 in
      let iY := if fill then 0 else Z.max (rY - brushSize) 0 in
      Some (flat_map (fun i =>
              flat_map (fun j =>
                if annulusTest fill brushSize rX rY iX iY i j
                then [ mkPoint (xC + i) (yC + j);
                       mkPoint (xC - i - evenX) (yC + j);
                       mkPoint (xC + i) (yC - j - evenY);
                       mkPoint (xC - i - evenX) (yC - j - evenY) ]
                else [])
                (upto 0 rY))
              (upto 0 rX))
  | None => None
  end.

Definition fillPixels (l : list Point) (ctx : CanvasRenderingContext2D)
  : CanvasRenderingContext2D :=
  fold_left (fun c p => fillRect (x p) (y p) 1 1 c) l ctx.

Definition Ellipse_use (st : ToolboxState) (points : list Point)
  (canvas_ : HTMLCanvasElement) : option HTMLCanvasElement :=
  match ellipse points (brushSize st) true, ellipse points (brushSize st) false with
  | Some bgPass, Some fgPass =>
      let ctx := getContext canvas_ in
      let ctx := setFillStyle (bgColor st) ctx in
      let ctx := fillPixels bgPass ctx in
      let ctx := setFillStyle (fgColor st) ctx in
      let ctx := fillPixels fgPass ctx in
      Some (canvas ctx)
  | _, _ => None
  end.

Definition Eraser_use (st : ToolboxState) (points : list Point)
  (canvas_ : HTMLCanvasElement) : HTMLCanvasElement :=
  canvas (fold_left (fun c p =>
            clearRect (x p - brushSize st + 1) (y p - brushSize st + 1)
                      (brushSize st) (brushSize st) c)
          points (getContext canvas_)).

Definition Eyedropper_use (st : ToolboxState) (points : list Point)
  (canvas_ : HTMLCanvasElement) : option ToolboxState :=
  let ctx := getContext canvas_ in
  match item points (len points - 1) with
  | Some lastPoint =>
      let data := getImageData (x lastPoint) (y lastPoint) ctx in
      let color := String.concat ""
        (map (fun i => padStart 2 "0" (toString16 i))
             [red data; green data; blue data; alpha data]) in
      if String.eqb color "00000000" then Some st
      else Some (setFgColor ("#" ++ color) st)
  | None => None
  end.

Definition Bucket_use (stack : nat) (st : ToolboxState) (points : list Point)
  (canvas_ : HTMLCanvasElement) : option FillRun :=
  let ctx := getContext canvas_ in
  let ctx := setFillStyle (fgColor st) ctx in
  match item points (len points - 1) with
  | Some lastPoint => Some (floodFill stack ctx lastPoint None)
  | None => None
  end.

End Tools.

(** ** Notions the properties are stated with *)

Definition leftOf (p : Point) : Point := mkPoint (x p - 1) (y p).
Definition rightOf (p : Point) : Point := mkPoint (x p + 1) (y p).
Definition above (p : Point) : Point := mkPoint (x p) (y p - 1).
Definition below (p : Point) : Point := mkPoint (x p) (y p + 1).

(** The four neighbours the flood fill recurses on, in its order. *)
Definition neighbours (p : Point) : list Point :=
  [leftOf p; rightOf p; above p; below p].

(** The 4-connected region of colour [col] around [seed] on a surface. *)
Inductive region (cv : HTMLCanvasElement) (col : Colord) (seed : Point)
  : Point -> Prop :=
| region_seed :
    inBounds cv seed = true -> pixels cv seed = col -> region cv col seed seed
| region_step : forall p q,
    region cv col seed p -> In q (neighbours p) ->
    inBounds cv q = true -> pixels cv q = col -> region cv col seed q.

(** Every pixel of a surface, row by row. *)
Definition allPixels (cv : HTMLCanvasElement) : list Point :=
  flat_map (fun j => map (fun i => mkPoint i j) (upto 0 (width cv - 1)))
           (upto 0 (height cv - 1)).

(** How many pixels of a surface have the colour [col]. *)
Definition countColor (col : Colord) (cv : HTMLCanvasElement) : nat :=
  List.length (filter (fun p => isEqual (pixels cv p) col) (allPixels cv)).

(** The context the Bucket tool hands to [floodFill]. *)
Definition bucketContext (fg : string) (cv : HTMLCanvasElement)
  : CanvasRenderingContext2D :=
  setFillStyle fg (getContext cv).

(** Mirroring about the parity-corrected centre of a bounding box. *)
Definition mirrorX (coords : Box) (p : Point) : Point :=
  let xC := (x0 coords + x1 coords + 1) / 2 in
  let evenX := Z.rem (x0 coords + x1 coords) 2 in
  mkPoint (2 * xC - evenX - x p) (y p).

Definition mirrorY (coords : Box) (p : Point) : Point :=
  let yC := (y0 coords + y1 coords + 1) / 2 in
  let evenY := Z.rem (y0 coords + y1 coords) 2 in
  mkPoint (x p) (2 * yC - evenY - y p).

(** Membership of the closed box between two corners. *)
Definition inBox (start end_ : Point) (p : Point) : bool :=
  (x start <=? x p) && (x p <=? x end_) && (y start <=? y p) && (y p <=? y end_).

(** Within [b] pixels of an edge of the box. *)
Definition onFrame (start end_ : Point) (b : Z) (p : Point) : bool :=
  (x p <? x start + b) || (x end_ - b <? x p)
  || (y p <? y start + b) || (y end_ - b <? y p).

(** The 3x3 interior of a 5x5 surface. *)
Definition interior5 (p : Point) : bool :=
  (1 <=? x p) && (x p <=? 3) && (1 <=? y p) && (y p <=? 3).

(** *** Concrete data for the examples *)

Definition hexValue (c : ascii) : option N :=
  let n := N_of_ascii c in
  if ((48 <=? n) && (n <=? 57))%N then Some (n - 48)%N
  else if ((97 <=? n) && (n <=? 102))%N then Some (n - 87)%N
  else None.

Definition hexByte (hi lo : ascii) : option byte :=
  match hexValue hi, hexValue lo with
  | Some h, Some l => Byte.of_N (16 * h + l)
  | _, _ => None
  end.

(** A parser for the [#rrggbbaa] form only; any other text is read as
    transparent black. *)
Definition parseHex8 (s : string) : Colord :=
  match s with
  | String "#" (String r1 (String r2 (String g1 (String g2
      (String b1 (String b2 (String a1 (String a2 EmptyString)))))))) =>
      match hexByte r1 r2, hexByte g1 g2, hexByte b1 b2, hexByte a1 a2 with
      | Some r, Some g, Some b, Some a => rgba r g b a
      | _, _, _, _ => transparentBlack
      end
  | _ => transparentBlack
  end.

(** The source-over rule on 8-bit channels with straight alpha, rounding
    to the nearest value: an opaque style replaces the pixel, a fully
    transparent style leaves it, any other style is mixed with it. *)
Definition toByte (n : N) : byte :=
  match Byte.of_N n with
  | Some i => i
  | None => xff
  end.

Definition mixChannel (cs cd aS aD total : N) : byte :=
  if (total =? 0)%N then x00
  else toByte ((2 * (cs * aS * 255 + cd * aD * (255 - aS)) + total)
               / (2 * total))%N.

Definition sourceOver8 (style : string) (under : Colord) : Colord :=
  let c := parseHex8 style in
  if Byte.eqb (alpha c) xff then c
  else if Byte.eqb (alpha c) x00 then under
  else
    let aS := Byte.to_N (alpha c) in
    let aD := Byte.to_N (alpha under) in
    let total := (aS * 255 + aD * (255 - aS))%N in
    rgba (mixChannel (Byte.to_N (red c)) (Byte.to_N (red under)) aS aD total)
         (mixChannel (Byte.to_N (green c)) (Byte.to_N (green under)) aS aD total)
         (mixChannel (Byte.to_N (blue c)) (Byte.to_N (blue under)) aS aD total)
         (toByte ((total + 127) / 255)%N).

Definition opaqueRed : Colord := rgba xff x00 x00 xff.
Definition opaqueBlue : Colord := rgba x00 x00 xff xff.

Definition uniform (w h : Z) (c : Colord) : HTMLCanvasElement :=
  mkCanvas w h (fun _ => c).

(** A 5x5 surface with a one-pixel border of one colour around an
    interior of another. *)
Definition bordered (border inner : Colord) : HTMLCanvasElement :=
  mkCanvas 5 5 (fun p => if interior5 p then inner else border).

(** No test at all: every quadrant offset passes. *)
Definition everyOffset (_ : bool) (_ _ _ _ _ _ _ : Z) : bool := true.

(** *** What a run of the flood fill guarantees *)

Definition origin : Point := mkPoint 0 0.

(** Two contexts of one surface size, fill style and transform. *)
Definition sameFrame (c c' : CanvasRenderingContext2D) : Prop :=
  width (canvas c') = width (canvas c)
  /\ height (canvas c') = height (canvas c)
  /\ fillStyle c' = fillStyle c
  /\ translation c' = translation c.

(** The contract of a run started in [ctx] that looks for [col] from the
    points [entries]: it repaints only pixels that had the colour [col],
    each once, each connected to an entry; and once it has returned, no
    entry and no neighbour of a repainted pixel (those of [pending] aside,
    whose neighbours are yet to be tried) still has the colour [col]. *)
Record FillOk (parseColor : string -> Colord) (col : Colord)
  (entries pending : list Point)
  (ctx : CanvasRenderingContext2D) (r : FillRun) : Prop := mkFillOk {
  ok_frame : sameFrame ctx (final r);
  ok_painted : forall q, In q (painted r) ->
    inBounds (canvas ctx) q = true
    /\ pixels (canvas ctx) q = col
    /\ pixels (canvas (final r)) q = parseColor (fillStyle ctx);
  ok_rest : forall q, ~ In q (painted r) ->
    pixels (canvas (final r)) q = pixels (canvas ctx) q;
  ok_nodup : NoDup (painted r);
  ok_reach : forall q, In q (painted r) ->
    exists e, In e entries /\ region (canvas ctx) col e q;
  ok_entries : returned r = true -> forall e, In e entries ->
    inBounds (canvas ctx) e = true -> pixels (canvas (final r)) e <> col;
  ok_closed : returned r = true -> forall q q', In q (painted r) ->
    ~ In q pending -> In q' (neighbours q) ->
    inBounds (canvas ctx) q' = true -> pixels (canvas (final r)) q' <> col
}.

(** The context is untransformed, its fill style is [s], and the pixel
    [q] already has the colour of that style. *)
Definition holds (parseColor : string -> Colord) (s : string) (q : Point)
  (c : CanvasRenderingContext2D) : Prop :=
  translation c = origin /\ fillStyle c = s
  /\ pixels (canvas c) q = parseColor s.

(** Two pixels inside the surface that both have the colour of the fill
    style. *)
Definition holdsPair (parseColor : string -> Colord) (s : string) (p q : Point)
  (c : CanvasRenderingContext2D) : Prop :=
  holds parseColor s p c /\ holds parseColor s q c
  /\ inBounds (canvas c) p = true /\ inBounds (canvas c) q = true.

(** The context is untransformed, its fill style is [s], and its surface
    is pixel for pixel the surface [cv]. *)
Definition untouched (s : string) (cv : HTMLCanvasElement)
  (c : CanvasRenderingContext2D) : Prop :=
  translation c = origin /\ fillStyle c = s
  /\ width (canvas c) = width cv /\ height (canvas c) = height cv
  /\ forall q, pixels (canvas c) q = pixels cv q.

(** The square of side [b] the Eraser clears for the point [p]: its
    bottom-right pixel is [p]. *)
Definition brushSquare (b : Z) (p q : Point) : bool :=
  (x p - b + 1 <=? x q) && (x q <=? x p)
  && (y p - b + 1 <=? y q) && (y q <=? y p).

(** Membership of a bounding box. *)
Definition inCoords (coords : Box) (p : Point) : bool :=
  (x0 coords <=? x p) && (x p <=? x1 coords)
  && (y0 coords <=? y p) && (y p <=? y1 coords).

(** Membership of a list of points, as a test. *)
Definition among (l : list Point) (q : Point) : bool :=
  existsb (Point_eqb q) l.

(** The text [#rrggbbaa] of a colour. *)
Definition hexText (d : Colord) : string :=
  ("#" ++ twoHexDigits (red d) ++ twoHexDigits (green d)
   ++ twoHexDigits (blue d) ++ twoHexDigits (alpha d))%string.

(** A point moved back by a displacement. *)
Definition movedFrom (dx dy : Z) (q : Point) : Point :=
  mkPoint (x q - dx) (y q - dy).

(** A fill style whose paint hides whatever is under it. *)
Definition opaqueStyle (parseColor : string -> Colord)
  (blend : string -> Colord -> Colord) (style : string) : Prop :=
  forall under, blend style under = parseColor style.

(** The fill styles a sequence of fills paints over a pixel, in order. *)
Definition stylesAt (fills : list (string * (Z * Z * Z * Z))) (q : Point)
  : list string :=
  map fst (filter (fun f => let '(_, (ox, oy, w, h)) := f in
                            covers ox oy w h q) fills).

(** Painting fill styles over a pixel one after another. *)
Definition paintAll (parseColor : string -> Colord)
  (blend : string -> Colord -> Colord) (styles : list string) (under : Colord)
  : Colord :=
  fold_left (fun d s => paintOver parseColor blend s d) styles under.

(** How many times a point occurs in a list of points. *)
Definition occurrences (l : list Point) (q : Point) : nat :=
  List.length (filter (Point_eqb q) l).

(** ** Basic facts *)

Lemma isEqual_eq (c d : Colord) : isEqual c d = true <-> c = d.
Proof.
  destruct c as [r1 g1 b1 a1], d as [r2 g2 b2 a2]; unfold isEqual; simpl.
  rewrite !andb_true_iff. split.
  - intros [[[Hr Hg] Hb] Ha].
    apply byte_dec_bl in Hr, Hg, Hb, Ha. now subst.
  - intros H; injection H as -> -> -> ->.
    repeat split; now apply byte_dec_lb.
Qed.

Lemma isEqual_refl (c : Colord) : isEqual c c = true.
Proof. now apply isEqual_eq. Qed.

Lemma isEqual_neq (c d : Colord) : isEqual c d = false <-> c <> d.
Proof.
  split.
  - intros H E. apply isEqual_eq in E. congruence.
  - intros H. destruct (isEqual c d) eqn:E; [|reflexivity].
    apply isEqual_eq in E. contradiction.
Qed.

Lemma Point_eqb_eq (p q : Point) : Point_eqb p q = true <-> p = q.
Proof.
  destruct p as [a b], q as [c d]; unfold Point_eqb; simpl.
  rewrite andb_true_iff, !Z.eqb_eq. split.
  - now intros [-> ->].
  - intros H; now injection H.
Qed.

Lemma Point_eq_dec (p q : Point) : {p = q} + {p <> q}.
Proof.
  destruct (Point_eqb p q) eqn:E.
  - left. now apply Point_eqb_eq.
  - right. intros H. apply Point_eqb_eq in H. congruence.
Qed.

Lemma inCanvas_inBounds (p : Point) (ctx : CanvasRenderingContext2D) :
  inCanvas p ctx = inBounds (canvas ctx) p.
Proof.
  unfold inCanvas, inBounds. now rewrite !Z.geb_leb.
Qed.

Lemma covers_unit (p q : Point) :
  covers (x p + 0) (y p + 0) 1 1 q = Point_eqb q p.
Proof.
  unfold covers, Point_eqb.
  destruct (x q =? x p) eqn:Ex, (y q =? y p) eqn:Ey; simpl;
    rewrite ?Z.eqb_eq, ?Z.eqb_neq in *;
    repeat match goal with
    | |- _ && _ = true => apply andb_true_iff; split
    | |- _ = true => first [apply Z.leb_le | apply Z.ltb_lt]; lia
    | |- _ = false => apply not_true_iff_false; rewrite !andb_true_iff,
        !Z.leb_le, !Z.ltb_lt; lia
    end.
Qed.

Lemma upto_In (lo hi k : Z) : In k (upto lo hi) <-> lo <= k <= hi.
Proof.
  unfold upto. rewrite in_map_iff. split.
  - intros [n [<- Hn]]. apply in_seq in Hn. lia.
  - intros H. exists (Z.to_nat (k - lo)). split; [lia|].
    apply in_seq. lia.
Qed.

Lemma allPixels_In (cv : HTMLCanvasElement) (p : Point) :
  In p (allPixels cv) <-> inBounds cv p = true.
Proof.
  unfold allPixels, inBounds.
  rewrite in_flat_map, !andb_true_iff, !Z.leb_le, !Z.ltb_lt. split.
  - intros [j [Hj Hp]]. apply in_map_iff in Hp as [i [<- Hi]].
    apply upto_In in Hj, Hi. simpl. lia.
  - intros H. exists (y p). split; [apply upto_In; lia|].
    apply in_map_iff. exists (x p). split; [now destruct p|apply upto_In; lia].
Qed.

(** ** The flood fill *)

Section FloodFill.

Variable parseColor : string -> Colord.
Variable blend : string -> Colord -> Colord.

Lemma sameFrame_refl ctx : sameFrame ctx ctx.
Proof. now repeat split. Qed.

Lemma sameFrame_trans c1 c2 c3 :
  sameFrame c1 c2 -> sameFrame c2 c3 -> sameFrame c1 c3.
Proof.
  unfold sameFrame. intros (?&?&?&?) (?&?&?&?). repeat split; congruence.
Qed.

Lemma sameFrame_inBounds c c' q :
  sameFrame c c' -> inBounds (canvas c') q = inBounds (canvas c) q.
Proof.
  intros (Hw & Hh & _). unfold inBounds. now rewrite Hw, Hh.
Qed.

(** Erasing and then painting a pixel stores the fill style there and
    nowhere else. *)
Lemma repaint_spec ctx p :
  translation ctx = origin ->
  sameFrame ctx (paintPixel parseColor blend p (erasePixel p ctx))
  /\ forall q,
       pixels (canvas (paintPixel parseColor blend p (erasePixel p ctx))) q
       = if inBounds (canvas ctx) q && Point_eqb q p
         then parseColor (fillStyle ctx) else pixels (canvas ctx) q.
Proof.
  intros Ht. split.
  - now repeat split.
  - intros q. unfold paintPixel, erasePixel, fillRect, clearRect; simpl.
    rewrite Ht; simpl. rewrite covers_unit.
    unfold inBounds at 1; simpl. fold (inBounds (canvas ctx) q).
    now destruct (inBounds (canvas ctx) q && Point_eqb q p).
Qed.

Lemma getPixelColor_inCanvas ctx p :
  inCanvas p ctx = true -> getPixelColor p ctx = pixels (canvas ctx) p.
Proof.
  intros H. rewrite inCanvas_inBounds in H.
  unfold getPixelColor, getImageData.
  destruct p as [a b]; simpl in *. now rewrite H.
Qed.

Lemma painted_app r1 vs :
  map place (filter matched (visits r1 ++ vs))
  = painted r1 ++ map place (filter matched vs).
Proof. unfold painted. now rewrite filter_app, map_app. Qed.

Lemma andThen_returned r k :
  returned (r ;; k) = returned r && returned (k (final r)).
Proof. unfold andThen. destruct (returned r) eqn:E; simpl; auto. Qed.

Lemma andThen_stopped r k : returned r = false -> r ;; k = r.
Proof. unfold andThen. now intros ->. Qed.

Lemma andThen_painted r k :
  returned r = true -> painted (r ;; k) = painted r ++ painted (k (final r)).
Proof.
  intros H. unfold andThen. rewrite H. unfold painted at 1; simpl.
  apply painted_app.
Qed.

Lemma andThen_final r k :
  returned r = true -> final (r ;; k) = final (k (final r)).
Proof. intros H. unfold andThen. now rewrite H. Qed.

(** A region found on a later surface was already a region before, as long
    as the later surface has no new pixel of the colour. *)
Lemma region_mono cv cv' col s e q :
  width cv' = width cv -> height cv' = height cv ->
  (forall p, inBounds cv p = true -> pixels cv' p = col -> pixels cv p = col) ->
  (inBounds cv e = true -> pixels cv e = col -> region cv col s e) ->
  region cv' col e q -> region cv col s q.
Proof.
  intros Hw Hh Hpix He Hr.
  assert (Hb : forall p, inBounds cv' p = inBounds cv p)
    by (intros p; unfold inBounds; now rewrite Hw, Hh).
  induction Hr as [Hin Hc | p q Hp IH Hn Hin Hc].
  - rewrite Hb in Hin. auto.
  - rewrite Hb in Hin. eapply region_step; eauto.
Qed.

(** Sequencing two runs. *)
Lemma FillOk_andThen col E1 E2 P ctx r k :
  parseColor (fillStyle ctx) <> col ->
  FillOk parseColor col E1 P ctx r ->
  FillOk parseColor col E2 [] (final r) (k (final r)) ->
  FillOk parseColor col (E1 ++ E2) P ctx (r ;; k).
Proof.
  intros Hfg H1 H2.
  destruct (returned r) eqn:Hret.
  2:{ rewrite andThen_stopped by assumption.
      destruct H1. constructor; auto; try congruence.
      intros q Hq. destruct (ok_reach0 q Hq) as [e [He Hr]].
      exists e. split; [apply in_or_app; now left|assumption]. }
  destruct H1 as [F1 P1 R1 N1 C1 En1 Cl1], H2 as [F2 P2 R2 N2 C2 En2 Cl2].
  assert (Hib : forall q, inBounds (canvas (final r)) q = inBounds (canvas ctx) q)
    by (intros q; now apply sameFrame_inBounds).
  assert (Hstyle : fillStyle (final r) = fillStyle ctx) by apply F1.
  assert (Hkeep : forall q, pixels (canvas (final r)) q = col ->
                            pixels (canvas ctx) q = col /\ ~ In q (painted r)).
  { intros q Hq.
    destruct (in_dec Point_eq_dec q (painted r)) as [Hin | Hin].
    - destruct (P1 q Hin) as (_ & _ & Hf). congruence.
    - split; [|assumption]. now rewrite <- (R1 q Hin). }
  assert (Hstay : forall q, pixels (canvas (final r)) q <> col ->
                            pixels (canvas (final (k (final r)))) q <> col).
  { intros q Hq.
    destruct (in_dec Point_eq_dec q (painted (k (final r)))) as [Hin | Hin].
    - destruct (P2 q Hin) as (_ & Hc & _). contradiction.
    - now rewrite (R2 q Hin). }
  constructor.
  - rewrite andThen_final by assumption. eapply sameFrame_trans; eauto.
  - intros q. rewrite andThen_painted, andThen_final by assumption.
    intros Hq. apply in_app_or in Hq as [Hq | Hq].
    + destruct (P1 q Hq) as (Hb & Hc & Hf). repeat split; auto.
      destruct (in_dec Point_eq_dec q (painted (k (final r)))) as [Hin | Hin].
      * destruct (P2 q Hin) as (_ & _ & Hf2). now rewrite Hf2, Hstyle.
      * now rewrite (R2 q Hin).
    + destruct (P2 q Hq) as (Hb & Hc & Hf).
      rewrite Hib in Hb. destruct (Hkeep q Hc) as [Hc0 _].
      repeat split; auto. now rewrite Hf, Hstyle.
  - intros q. rewrite andThen_painted, andThen_final by assumption.
    intros Hq. rewrite R2, R1; auto; intros Hin; apply Hq, in_or_app; auto.
  - rewrite andThen_painted by assumption.
    apply NoDup_app; auto.
    intros q Hq1 Hq2. destruct (P2 q Hq2) as (_ & Hc & _).
    destruct (Hkeep q Hc) as [_ Hn]. contradiction.
  - intros q. rewrite andThen_painted by assumption.
    intros Hq. apply in_app_or in Hq as [Hq | Hq].
    + destruct (C1 q Hq) as [e [He Hr]]. exists e. split; [|assumption].
      apply in_or_app; now left.
    + destruct (C2 q Hq) as [e [He Hr]]. exists e. split.
      * apply in_or_app; now right.
      * eapply region_mono with (cv' := canvas (final r)) (e := e);
          try apply F1; try exact Hr.
        -- intros p _ Hp. now apply Hkeep.
        -- intros Hb Hc. apply region_seed; assumption.
  - rewrite andThen_returned, Hret; simpl. intros Hret2 e He Hb.
    rewrite andThen_final by assumption.
    apply in_app_or in He as [He | He].
    + apply Hstay. now apply En1.
    + apply En2; auto. now rewrite Hib.
  - rewrite andThen_returned, Hret; simpl. intros Hret2 q q'.
    rewrite andThen_painted, andThen_final by assumption.
    intros Hq Hp Hn Hb. apply in_app_or in Hq as [Hq | Hq].
    + apply Hstay. eapply Cl1; eauto.
    + apply (Cl2 Hret2 q q' Hq (fun F => F) Hn). now rewrite Hib.
Qed.

(** A run that repaints nothing. *)
Lemma FillOk_idle col E P ctx vs b :
  filter matched vs = [] ->
  (b = true -> forall e, In e E -> inBounds (canvas ctx) e = true ->
     pixels (canvas ctx) e <> col) ->
  FillOk parseColor col E P ctx (mkRun ctx vs b).
Proof.
  intros Hv He.
  constructor; unfold painted; simpl; try rewrite Hv; simpl;
    auto using sameFrame_refl, NoDup_nil; try contradiction.
Qed.

(** The repainting of the visited pixel itself, before its neighbours are
    tried. *)
Lemma FillOk_first col ctx p v :
  translation ctx = origin ->
  parseColor (fillStyle ctx) <> col ->
  inBounds (canvas ctx) p = true ->
  pixels (canvas ctx) p = col ->
  matched v = true -> place v = p ->
  FillOk parseColor col [p] [p] ctx
    (mkRun (paintPixel parseColor blend p (erasePixel p ctx)) [v] true).
Proof.
  intros Ht Hfg Hb Hc Hm Hp.
  destruct (repaint_spec ctx p Ht) as [Hf Hpix].
  assert (Hpt : painted (mkRun (paintPixel parseColor blend p (erasePixel p ctx)) [v] true)
                = [p]).
  { unfold painted; simpl. now rewrite Hm, <- Hp. }
  constructor; rewrite ?Hpt; cbn [final returned].
  - exact Hf.
  - intros q [<- | []]. repeat split; auto.
    rewrite Hpix, Hb. simpl.
    now rewrite (proj2 (Point_eqb_eq p p) eq_refl).
  - intros q Hq. rewrite Hpix.
    destruct (Point_eqb q p) eqn:E.
    + apply Point_eqb_eq in E. subst. simpl in Hq. tauto.
    + now rewrite andb_false_r.
  - repeat constructor. simpl. tauto.
  - intros q [<- | []]. exists p. split; [now left|].
    now apply region_seed.
  - intros _ e [<- | []] _. rewrite Hpix, Hb. simpl.
    now rewrite (proj2 (Point_eqb_eq p p) eq_refl).
  - intros _ q q' [<- | []] Hn. simpl in Hn. tauto.
Qed.

(** Once all four neighbours have been tried the visited pixel is no
    longer pending, and it is the only entry. *)
Lemma FillOk_close col ctx p r :
  inBounds (canvas ctx) p = true ->
  pixels (canvas ctx) p = col ->
  FillOk parseColor col (p :: neighbours p) [p] ctx r ->
  FillOk parseColor col [p] [] ctx r.
Proof.
  intros Hb Hc [F Pn R N C En Cl]. constructor; auto.
  - intros q Hq. destruct (C q Hq) as [e [He Hr]]. exists p. split; [now left|].
    destruct He as [<- | He]; [assumption|].
    eapply region_mono with (cv' := canvas ctx) (e := e); eauto.
    intros Hbe Hce. eapply region_step; eauto. now apply region_seed.
  - intros Hret e [<- | []] He. apply En; auto. now left.
  - intros Hret q q' Hq _ Hn Hbq.
    destruct (Point_eq_dec q p) as [-> | Hne].
    + apply En; auto. now right.
    + eapply Cl; eauto. intros [E | []]. congruence.
Qed.

(** The visited pixel followed by the four recursive calls. *)
Lemma FillOk_chain col ctx p r0 k1 k2 k3 k4 :
  parseColor (fillStyle ctx) <> col ->
  FillOk parseColor col [p] [p] ctx r0 ->
  (forall c, sameFrame ctx c -> FillOk parseColor col [leftOf p] [] c (k1 c)) ->
  (forall c, sameFrame ctx c -> FillOk parseColor col [rightOf p] [] c (k2 c)) ->
  (forall c, sameFrame ctx c -> FillOk parseColor col [above p] [] c (k3 c)) ->
  (forall c, sameFrame ctx c -> FillOk parseColor col [below p] [] c (k4 c)) ->
  FillOk parseColor col [p; leftOf p] [p] ctx (r0 ;; k1)
  /\ FillOk parseColor col [p; leftOf p; rightOf p] [p] ctx (r0 ;; k1 ;; k2)
  /\ FillOk parseColor col [p; leftOf p; rightOf p; above p] [p] ctx
       (r0 ;; k1 ;; k2 ;; k3)
  /\ FillOk parseColor col (p :: neighbours p) [p] ctx
       (r0 ;; k1 ;; k2 ;; k3 ;; k4).
Proof.
  intros Hfg H0 K1 K2 K3 K4.
  assert (H1 : FillOk parseColor col ([p] ++ [leftOf p]) [p] ctx (r0 ;; k1))
    by (apply FillOk_andThen; auto; apply K1, H0).
  assert (H2 : FillOk parseColor col (([p] ++ [leftOf p]) ++ [rightOf p]) [p] ctx
                 (r0 ;; k1 ;; k2))
    by (apply FillOk_andThen; auto; apply K2, H1).
  assert (H3 : FillOk parseColor col
                 ((([p] ++ [leftOf p]) ++ [rightOf p]) ++ [above p]) [p] ctx
                 (r0 ;; k1 ;; k2 ;; k3))
    by (apply FillOk_andThen; auto; apply K3, H2).
  assert (H4 : FillOk parseColor col
                 (((([p] ++ [leftOf p]) ++ [rightOf p]) ++ [above p]) ++ [below p])
                 [p] ctx (r0 ;; k1 ;; k2 ;; k3 ;; k4))
    by (apply FillOk_andThen; auto; apply K4, H3).
  auto.
Qed.

Lemma sameFrame_ready ctx c col :
  translation ctx = origin -> parseColor (fillStyle ctx) <> col ->
  sameFrame ctx c ->
  translation c = origin /\ parseColor (fillStyle c) <> col.
Proof.
  intros Ht Hfg (_ & _ & Hs & Htr). rewrite Hs, Htr. auto.
Qed.

(** Every recursive call keeps the contract, however deep the stack. *)
Lemma floodFill_ok stack : forall ctx p col,
  translation ctx = origin ->
  parseColor (fillStyle ctx) <> col ->
  FillOk parseColor col [p] [] ctx (floodFill parseColor blend stack ctx p (Some col)).
Proof.
  induction stack as [|n IH]; intros ctx p col Ht Hfg; simpl.
  - apply FillOk_idle; [reflexivity | discriminate].
  - destruct (inCanvas p ctx) eqn:Hin; simpl.
    2:{ apply FillOk_idle; [reflexivity|].
        intros _ e [<- | []] He. rewrite inCanvas_inBounds in Hin. congruence. }
    rewrite (getPixelColor_inCanvas _ _ Hin).
    pose proof Hin as Hb. rewrite inCanvas_inBounds in Hb.
    destruct (isEqual (pixels (canvas ctx) p) col) eqn:Heq; simpl.
    2:{ apply FillOk_idle.
        - unfold matched; simpl. now rewrite Heq.
        - intros _ e [<- | []] _. now apply isEqual_neq. }
    apply isEqual_eq in Heq. rewrite Heq.
    apply FillOk_close; auto.
    apply FillOk_chain; auto.
    + apply FillOk_first; auto. unfold matched; simpl. apply isEqual_refl.
    + intros c Hc. apply IH; eapply sameFrame_ready; eauto.
    + intros c Hc. apply IH; eapply sameFrame_ready; eauto.
    + intros c Hc. apply IH; eapply sameFrame_ready; eauto.
    + intros c Hc. apply IH; eapply sameFrame_ready; eauto.
Qed.

(** The top-level call, which looks for no colour and so repaints the
    entry, starts a fill of the colour it finds there. *)
Lemma floodFill_top_ok stack ctx p :
  translation ctx = origin ->
  inBounds (canvas ctx) p = true ->
  parseColor (fillStyle ctx) <> pixels (canvas ctx) p ->
  FillOk parseColor (pixels (canvas ctx) p) [p] [] ctx
    (floodFill parseColor blend (S stack) ctx p None).
Proof.
  intros Ht Hb Hfg. simpl.
  rewrite inCanvas_inBounds, Hb; simpl.
  rewrite getPixelColor_inCanvas by now rewrite inCanvas_inBounds.
  apply FillOk_close; auto.
  apply FillOk_chain; auto.
  - apply FillOk_first; auto.
  - intros c Hc. apply floodFill_ok; eapply sameFrame_ready; eauto.
  - intros c Hc. apply floodFill_ok; eapply sameFrame_ready; eauto.
  - intros c Hc. apply floodFill_ok; eapply sameFrame_ready; eauto.
  - intros c Hc. apply floodFill_ok; eapply sameFrame_ready; eauto.
Qed.

(** *** Termination: the pixels of the sought colour run out *)

Lemma filter_length_le {A : Type} (f g : A -> bool) (l : list A) :
  (forall a, In a l -> f a = true -> g a = true) ->
  (List.length (filter f l) <= List.length (filter g l))%nat.
Proof.
  induction l as [|a l IH]; intros H; simpl; [lia|].
  assert (IH' := IH (fun b Hb => H b (or_intror Hb))).
  destruct (f a) eqn:Ef.
  - rewrite (H a (or_introl eq_refl) Ef). simpl. lia.
  - destruct (g a); simpl; lia.
Qed.

Lemma filter_length_lt {A : Type} (f g : A -> bool) (l : list A) (a0 : A) :
  (forall a, In a l -> f a = true -> g a = true) ->
  In a0 l -> f a0 = false -> g a0 = true ->
  (List.length (filter f l) < List.length (filter g l))%nat.
Proof.
  induction l as [|a l IH]; intros H Hin Hf Hg; simpl; [contradiction|].
  assert (Hl := filter_length_le f g l (fun b Hb => H b (or_intror Hb))).
  destruct Hin as [-> | Hin].
  - rewrite Hf, Hg. simpl. lia.
  - assert (IH' := IH (fun b Hb => H b (or_intror Hb)) Hin Hf Hg).
    destruct (f a) eqn:Ef.
    + rewrite (H a (or_introl eq_refl) Ef). simpl. lia.
    + destruct (g a); simpl; lia.
Qed.

Lemma allPixels_frame cv cv' :
  width cv' = width cv -> height cv' = height cv -> allPixels cv' = allPixels cv.
Proof. intros Hw Hh. unfold allPixels. now rewrite Hw, Hh. Qed.

Lemma countColor_le col cv cv' :
  width cv' = width cv -> height cv' = height cv ->
  (forall q, pixels cv' q = col -> pixels cv q = col) ->
  (countColor col cv' <= countColor col cv)%nat.
Proof.
  intros Hw Hh H. unfold countColor. rewrite (allPixels_frame cv cv' Hw Hh).
  apply filter_length_le. intros q _ Hq.
  apply isEqual_eq. apply H. now apply isEqual_eq.
Qed.

Lemma countColor_lt col cv cv' p :
  width cv' = width cv -> height cv' = height cv ->
  (forall q, pixels cv' q = col -> pixels cv q = col) ->
  inBounds cv p = true -> pixels cv p = col -> pixels cv' p <> col ->
  (countColor col cv' < countColor col cv)%nat.
Proof.
  intros Hw Hh H Hb Hc Hn. unfold countColor.
  rewrite (allPixels_frame cv cv' Hw Hh).
  apply filter_length_lt with (a0 := p).
  - intros q _ Hq. apply isEqual_eq. apply H. now apply isEqual_eq.
  - now apply allPixels_In.
  - now apply isEqual_neq.
  - now apply isEqual_eq.
Qed.

Lemma FillOk_keep col E P ctx r :
  parseColor (fillStyle ctx) <> col ->
  FillOk parseColor col E P ctx r ->
  forall q, pixels (canvas (final r)) q = col -> pixels (canvas ctx) q = col.
Proof.
  intros Hfg [F Pn R _ _ _ _] q Hq.
  destruct (in_dec Point_eq_dec q (painted r)) as [Hin | Hin].
  - now destruct (Pn q Hin) as (_ & Hc & _).
  - now rewrite <- (R q Hin).
Qed.

Lemma FillOk_count_lt col E P ctx r p :
  parseColor (fillStyle ctx) <> col ->
  FillOk parseColor col E P ctx r ->
  In p (painted r) ->
  (countColor col (canvas (final r)) < countColor col (canvas ctx))%nat.
Proof.
  intros Hfg H Hp. destruct (ok_painted _ _ _ _ _ _ H p Hp) as (Hb & Hc & Hf).
  destruct (ok_frame _ _ _ _ _ _ H) as (Hw & Hh & _).
  apply countColor_lt with (p := p); auto.
  - eapply FillOk_keep; eauto.
  - now rewrite Hf.
Qed.

Lemma painted_andThen_incl r k q :
  In q (painted r) -> In q (painted (r ;; k)).
Proof.
  intros H. destruct (returned r) eqn:E.
  - rewrite andThen_painted by assumption. apply in_or_app. now left.
  - now rewrite andThen_stopped.
Qed.

Lemma floodFill_step_returns n ctx p sc col :
  translation ctx = origin ->
  parseColor (fillStyle ctx) <> col ->
  match sc with Some c => c = col | None => pixels (canvas ctx) p = col end ->
  (forall c q, translation c = origin -> parseColor (fillStyle c) <> col ->
     (countColor col (canvas c) < countColor col (canvas ctx))%nat ->
     returned (floodFill parseColor blend n c q (Some col)) = true) ->
  returned (floodFill parseColor blend (S n) ctx p sc) = true.
Proof.
  intros Ht Hfg Hsc Hrec. cbn [floodFill].
  destruct (inCanvas p ctx) eqn:Hin; [|reflexivity]. cbn [negb].
  rewrite (getPixelColor_inCanvas _ _ Hin).
  pose proof Hin as Hb. rewrite inCanvas_inBounds in Hb.
  assert (Hcase : (if match sc with
                      | Some c => negb (isEqual (pixels (canvas ctx) p) c)
                      | None => false
                      end then true else false) = true
                  \/ pixels (canvas ctx) p = col /\ matched (mkVisit p col sc) = true).
  { destruct sc as [c|]; unfold matched; simpl.
    - subst c. destruct (isEqual (pixels (canvas ctx) p) col) eqn:Heq; simpl; auto.
      right. split; [now apply isEqual_eq | apply isEqual_refl].
    - auto. }
  destruct Hcase as [Hcase | [Heq Hm]].
  { destruct (match sc with
              | Some c => negb (isEqual (pixels (canvas ctx) p) c)
              | None => false
              end); [reflexivity | discriminate]. }
  replace (match sc with
           | Some c => negb (isEqual (pixels (canvas ctx) p) c)
           | None => false
           end) with false.
  2:{ destruct sc as [c|]; [|reflexivity]. subst c.
      rewrite Heq, isEqual_refl. reflexivity. }
  rewrite Heq.
  set (r0 := mkRun (paintPixel parseColor blend p (erasePixel p ctx))
                   [mkVisit p col sc] true).
  assert (H0 : FillOk parseColor col [p] [p] ctx r0).
  { apply FillOk_first; auto. }
  assert (Hp : In p (painted r0)).
  { unfold painted. cbn [visits r0 filter]. rewrite Hm. now left. }
  match goal with
  | |- returned (r0 ;; ?k1 ;; ?k2 ;; ?k3 ;; ?k4) = true =>
      destruct (FillOk_chain col ctx p r0 k1 k2 k3 k4 Hfg H0) as (H1 & H2 & H3 & _);
        try (intros c Hc; apply floodFill_ok; eapply sameFrame_ready; eauto)
  end.
  assert (Hgo : forall E r q, FillOk parseColor col E [p] ctx r ->
                  In p (painted r) ->
                  returned (floodFill parseColor blend n (final r) q (Some col)) = true).
  { intros E r q Hr Hpr.
    destruct (sameFrame_ready ctx (final r) col Ht Hfg (ok_frame _ _ _ _ _ _ Hr)).
    apply Hrec; auto. eapply FillOk_count_lt; eauto. }
  rewrite !andThen_returned. cbn [returned andb].
  repeat (apply andb_true_iff; split); try reflexivity;
    eapply Hgo; eauto using painted_andThen_incl.
Qed.

(** With one more level of stack than there are pixels of the sought
    colour, a recursive call returns. *)
Lemma floodFill_returns n : forall ctx p col,
  translation ctx = origin ->
  parseColor (fillStyle ctx) <> col ->
  (countColor col (canvas ctx) <= n)%nat ->
  returned (floodFill parseColor blend (S n) ctx p (Some col)) = true.
Proof.
  induction n as [|n IH]; intros ctx p col Ht Hfg Hn;
    apply floodFill_step_returns with (col := col); auto; intros c q Hc Hs Hlt.
  - lia.
  - apply IH; auto. lia.
Qed.

(** The top-level call returns as well. *)
Lemma floodFill_top_returns n ctx p :
  translation ctx = origin ->
  parseColor (fillStyle ctx) <> pixels (canvas ctx) p ->
  (countColor (pixels (canvas ctx) p) (canvas ctx) <= n)%nat ->
  returned (floodFill parseColor blend (S n) ctx p None) = true.
Proof.
  intros Ht Hfg Hn.
  apply floodFill_step_returns with (col := pixels (canvas ctx) p); auto.
  intros c q Hc Hs Hlt.
  destruct n as [|n]; [lia|].
  apply floodFill_returns; auto. lia.
Qed.

(** *** Completeness: a fill that returned has reached the whole region *)

Lemma FillOk_complete col ctx p r :
  FillOk parseColor col [p] [] ctx r ->
  returned r = true ->
  forall q, region (canvas ctx) col p q -> In q (painted r).
Proof.
  intros [F Pn R N C En Cl] Hret q Hq.
  induction Hq as [Hb Hc | q q' Hq IH Hn Hb Hc].
  - destruct (in_dec Point_eq_dec p (painted r)) as [Hin | Hin]; [assumption|].
    exfalso. apply (En Hret p (or_introl eq_refl) Hb). now rewrite R.
  - destruct (in_dec Point_eq_dec q' (painted r)) as [Hin | Hin]; [assumption|].
    exfalso. apply (Cl Hret q q' IH (fun F => F) Hn Hb). now rewrite R.
Qed.

(** The fill started by the Bucket tool on a seed inside the surface whose
    colour is not the foreground colour: it returns, and it repaints the
    region of the seed, each pixel once, and nothing else. *)
Lemma bucket_fill_correct fg cv seed stack :
  inBounds cv seed = true ->
  parseColor fg <> pixels cv seed ->
  (countColor (pixels cv seed) cv < stack)%nat ->
  let r := floodFill parseColor blend stack (bucketContext fg cv) seed None in
  returned r = true
  /\ NoDup (painted r)
  /\ (forall q, In q (painted r) <-> region cv (pixels cv seed) seed q)
  /\ (forall q, In q (painted r) -> pixels (canvas (final r)) q = parseColor fg)
  /\ (forall q, ~ In q (painted r) -> pixels (canvas (final r)) q = pixels cv q)
  /\ width (canvas (final r)) = width cv
  /\ height (canvas (final r)) = height cv.
Proof.
  intros Hb Hfg Hn r.
  destruct stack as [|n]; [lia|].
  assert (Hok : FillOk parseColor (pixels cv seed) [seed] [] (bucketContext fg cv) r)
    by (apply (floodFill_top_ok n (bucketContext fg cv) seed); auto).
  assert (Hret : returned r = true)
    by (apply (floodFill_top_returns n (bucketContext fg cv) seed); auto;
        simpl; lia).
  split; [assumption|]. split; [apply Hok|]. split; [|split; [|split]].
  - intros q. split.
    + intros Hq. destruct (ok_reach _ _ _ _ _ _ Hok q Hq) as [e [[<- | []] He]].
      exact He.
    + apply (FillOk_complete _ _ _ _ Hok Hret).
  - intros q Hq. now destruct (ok_painted _ _ _ _ _ _ Hok q Hq) as (_ & _ & Hf).
  - intros q Hq. apply (ok_rest _ _ _ _ _ _ Hok q Hq).
  - destruct (ok_frame _ _ _ _ _ _ Hok) as (Hw & Hh & _). auto.
Qed.

(** *** Properties that need no assumption on the colours *)

Lemma andThen_visits r k v :
  In v (visits (r ;; k)) -> In v (visits r) \/ In v (visits (k (final r))).
Proof.
  unfold andThen. destruct (returned r); simpl; auto.
  intros H. now apply in_app_or.
Qed.

(** The colour handed down the recursion is the one it was started with. *)
Lemma floodFill_wanted stack : forall ctx p col v,
  In v (visits (floodFill parseColor blend stack ctx p (Some col))) ->
  wanted v = Some col.
Proof.
  induction stack as [|n IH]; intros ctx p col v; cbn [floodFill].
  - intros [].
  - destruct (inCanvas p ctx); cbn [negb]; [|intros []].
    destruct (isEqual (getPixelColor p ctx) col) eqn:Heq; cbn [negb].
    + apply isEqual_eq in Heq. rewrite Heq. intros H.
      repeat (apply andThen_visits in H as [H | H]); eauto.
      destruct H as [<- | []]. reflexivity.
    + intros [<- | []]. reflexivity.
Qed.

Lemma andThen_inv (I : CanvasRenderingContext2D -> Prop) r k :
  I (final r) -> (forall c, I c -> I (final (k c))) -> I (final (r ;; k)).
Proof.
  intros Hr Hk. unfold andThen. destruct (returned r); simpl; auto.
Qed.

(** An invariant of the context that repainting a pixel of the sought
    colour keeps is kept by the whole recursion. *)
Lemma floodFill_inv (I : CanvasRenderingContext2D -> Prop) col :
  (forall c p, I c -> inCanvas p c = true -> pixels (canvas c) p = col ->
     I (paintPixel parseColor blend p (erasePixel p c))) ->
  forall stack ctx p, I ctx ->
    I (final (floodFill parseColor blend stack ctx p (Some col))).
Proof.
  intros Hstep. induction stack as [|n IH]; intros ctx p Hi; cbn [floodFill].
  - exact Hi.
  - destruct (inCanvas p ctx) eqn:Hin; cbn [negb]; [|exact Hi].
    rewrite (getPixelColor_inCanvas _ _ Hin).
    destruct (isEqual (pixels (canvas ctx) p) col) eqn:Heq; cbn [negb];
      [|exact Hi].
    apply isEqual_eq in Heq. rewrite Heq.
    repeat (apply andThen_inv; [|intros c Hc; now apply IH]).
    cbn [final]. now apply Hstep.
Qed.

Lemma floodFill_top_inv (I : CanvasRenderingContext2D -> Prop) stack ctx p :
  (forall c q, I c -> inCanvas q c = true ->
     pixels (canvas c) q = pixels (canvas ctx) p ->
     I (paintPixel parseColor blend q (erasePixel q c))) ->
  I ctx ->
  I (final (floodFill parseColor blend stack ctx p None)).
Proof.
  intros Hstep Hi. destruct stack as [|n]; cbn [floodFill]; [exact Hi|].
  destruct (inCanvas p ctx) eqn:Hin; cbn [negb]; [|exact Hi].
  rewrite (getPixelColor_inCanvas _ _ Hin).
  repeat (apply andThen_inv;
          [|intros c Hc; now apply (floodFill_inv I (pixels (canvas ctx) p))]).
  cbn [final]. now apply Hstep.
Qed.

(** A pixel that has the fill style's colour keeps it. *)
Lemma holds_repaint s q c p :
  holds parseColor s q c ->
  holds parseColor s q (paintPixel parseColor blend p (erasePixel p c)).
Proof.
  intros (Ht & Hs & Hq). destruct (repaint_spec c p Ht) as [(_ & _ & Hs' & Ht') Hpix].
  repeat split.
  - now rewrite Ht'.
  - now rewrite Hs'.
  - rewrite Hpix, Hs.
    destruct (inBounds (canvas c) q && Point_eqb q p); auto.
Qed.

Lemma holdsPair_repaint s p q c p' :
  holdsPair parseColor s p q c ->
  holdsPair parseColor s p q (paintPixel parseColor blend p' (erasePixel p' c)).
Proof.
  intros (Hp & Hq & Bp & Bq).
  assert (Ht : translation c = origin) by apply Hp.
  destruct (repaint_spec c p' Ht) as [Hf _].
  split; [now apply holds_repaint|].
  split; [now apply holds_repaint|].
  split; now rewrite (sameFrame_inBounds _ _ _ Hf).
Qed.

Lemma holdsPair_swap s p q c :
  holdsPair parseColor s p q c -> holdsPair parseColor s q p c.
Proof. unfold holdsPair. tauto. Qed.

Lemma neighbours_sym p q : In q (neighbours p) -> In p (neighbours q).
Proof.
  destruct p as [a b]. unfold neighbours, leftOf, rightOf, above, below; simpl.
  intros [<- | [<- | [<- | [<- | []]]]]; simpl;
    [ right; left | left | right; right; right; left | right; right; left ];
    f_equal; lia.
Qed.

(** *** Divergence: a fill looking for the colour it paints with *)

Lemma stuck_chain (I : CanvasRenderingContext2D -> Prop) r0 k1 k2 k3 k4 :
  I (final r0) ->
  (forall c, I c -> I (final (k1 c))) ->
  (forall c, I c -> I (final (k2 c))) ->
  (forall c, I c -> I (final (k3 c))) ->
  (forall c, I c -> returned (k1 c) = false)
  \/ (forall c, I c -> returned (k2 c) = false)
  \/ (forall c, I c -> returned (k3 c) = false)
  \/ (forall c, I c -> returned (k4 c) = false) ->
  returned (r0 ;; k1 ;; k2 ;; k3 ;; k4) = false.
Proof.
  intros H0 K1 K2 K3 Hstuck.
  assert (H1 : I (final (r0 ;; k1))) by (apply andThen_inv; auto).
  assert (H2 : I (final (r0 ;; k1 ;; k2))) by (apply andThen_inv; auto).
  assert (H3 : I (final (r0 ;; k1 ;; k2 ;; k3))) by (apply andThen_inv; auto).
  rewrite (andThen_returned _ k4), (andThen_returned _ k3),
    (andThen_returned _ k2), (andThen_returned _ k1).
  destruct Hstuck as [H | [H | [H | H]]]; rewrite H by assumption;
    now rewrite ?andb_false_r.
Qed.

Lemma floodFill_step_diverges s n ctx p q sc :
  holdsPair parseColor s p q ctx ->
  In q (neighbours p) ->
  sc = None \/ sc = Some (parseColor s) ->
  (forall c, holdsPair parseColor s p q c ->
     returned (floodFill parseColor blend n c q (Some (parseColor s))) = false) ->
  returned (floodFill parseColor blend (S n) ctx p sc) = false.
Proof.
  intros Hpair Hq Hsc Hrec. cbn [floodFill].
  destruct Hpair as (Hp & Hq' & Bp & Bq).
  assert (Hin : inCanvas p ctx = true) by now rewrite inCanvas_inBounds.
  rewrite Hin. cbn [negb].
  rewrite (getPixelColor_inCanvas _ _ Hin).
  destruct Hp as (Ht & Hs & Hc). rewrite Hc.
  replace (match sc with
           | Some c => negb (isEqual (parseColor s) c)
           | None => false
           end) with false
    by (destruct Hsc as [-> | ->]; [reflexivity | now rewrite isEqual_refl]).
  assert (Hall : holdsPair parseColor s p q ctx) by (repeat split; auto; apply Hq').
  assert (Hkeep : forall n' p' c, holdsPair parseColor s p q c ->
            holdsPair parseColor s p q
              (final (floodFill parseColor blend n' c p' (Some (parseColor s))))).
  { intros n' p' c Hc'.
    apply (floodFill_inv (holdsPair parseColor s p q) (parseColor s)); auto.
    intros c' q' Hc'' _ _. now apply holdsPair_repaint. }
  apply (stuck_chain (holdsPair parseColor s p q)); auto.
  - cbn [final]. now apply holdsPair_repaint.
  - unfold neighbours, leftOf, rightOf, above, below in Hq.
    destruct Hq as [<- | [<- | [<- | [<- | []]]]]; auto.
Qed.

Lemma floodFill_diverges s n : forall ctx p q,
  holdsPair parseColor s p q ctx ->
  In q (neighbours p) ->
  returned (floodFill parseColor blend n ctx p (Some (parseColor s))) = false.
Proof.
  induction n as [|n IH]; intros ctx p q Hpair Hq; [reflexivity|].
  apply floodFill_step_diverges with (s := s) (q := q); auto.
  intros c Hc. apply IH with (q := p).
  - now apply holdsPair_swap.
  - now apply neighbours_sym.
Qed.

(** *** A fill with the colour it looks for changes no pixel *)

Lemma untouched_repaint s cv c p :
  untouched s cv c ->
  pixels (canvas c) p = parseColor s ->
  untouched s cv (paintPixel parseColor blend p (erasePixel p c)).
Proof.
  intros (Ht & Hs & Hw & Hh & Hpix) Hp.
  destruct (repaint_spec c p Ht) as [(Hw' & Hh' & Hs' & Ht') Hpix'].
  repeat split; try congruence.
  intros q. rewrite Hpix'.
  destruct (Point_eqb q p) eqn:E.
  - apply Point_eqb_eq in E. subst q.
    destruct (inBounds (canvas c) p); simpl; auto. rewrite Hs, <- Hp. apply Hpix.
  - rewrite andb_false_r. apply Hpix.
Qed.

End FloodFill.

(** ** The Bucket tool *)

Lemma region_interior5 cv X Y :
  width cv = 5 -> height cv = 5 ->
  (forall q, inBounds cv q = true ->
     pixels cv q = if interior5 q then Y else X) ->
  X <> Y ->
  forall q, region cv Y (mkPoint 2 2) q <-> interior5 q = true.
Proof.
  intros Hw Hh Hpix Hxy.
  assert (Hin : forall q, interior5 q = true ->
                  inBounds cv q = true /\ pixels cv q = Y).
  { intros q Hq.
    assert (Hb : inBounds cv q = true).
    { unfold interior5, inBounds in *. rewrite Hw, Hh.
      rewrite !andb_true_iff, !Z.leb_le in Hq.
      rewrite !andb_true_iff, !Z.leb_le, !Z.ltb_lt. lia. }
    split; [assumption|]. now rewrite (Hpix q Hb), Hq. }
  assert (Hgrow : forall p q, region cv Y (mkPoint 2 2) p ->
            In q (neighbours p) -> interior5 q = true ->
            region cv Y (mkPoint 2 2) q).
  { intros p q Hp Hn Hq. destruct (Hin q Hq).
    eapply region_step; eauto. }
  assert (Hseed : region cv Y (mkPoint 2 2) (mkPoint 2 2))
    by (apply region_seed; now apply Hin).
  intros q. split.
  - induction 1 as [Hb Hc | p q Hp IH Hn Hb Hc]; [reflexivity|].
    rewrite (Hpix q Hb) in Hc.
    destruct (interior5 q); congruence.
  - intros Hq. destruct q as [a b].
    unfold interior5 in Hq; simpl in Hq.
    rewrite !andb_true_iff, !Z.leb_le in Hq.
    assert (Ha : a = 1 \/ a = 2 \/ a = 3) by lia.
    assert (Hb : b = 1 \/ b = 2 \/ b = 3) by lia.
    assert (H21 : region cv Y (mkPoint 2 2) (mkPoint 2 1))
      by (apply (Hgrow (mkPoint 2 2)); simpl; auto).
    assert (H23 : region cv Y (mkPoint 2 2) (mkPoint 2 3))
      by (apply (Hgrow (mkPoint 2 2)); simpl; auto).
    destruct Ha as [-> | [-> | ->]], Hb as [-> | [-> | ->]]; auto;
      first [ apply (Hgrow (mkPoint 2 2)); simpl; now auto
            | apply (Hgrow (mkPoint 2 1)); simpl; now auto
            | apply (Hgrow (mkPoint 2 3)); simpl; now auto ].
Qed.

Lemma countColor_interior5 cv X Y :
  width cv = 5 -> height cv = 5 ->
  (forall q, inBounds cv q = true ->
     pixels cv q = if interior5 q then Y else X) ->
  X <> Y ->
  countColor Y cv = 9%nat.
Proof.
  intros Hw Hh Hpix Hxy. unfold countColor.
  rewrite (filter_ext_in _ interior5).
  - unfold allPixels. rewrite Hw, Hh. reflexivity.
  - intros q Hq. apply allPixels_In in Hq. rewrite (Hpix q Hq).
    destruct (interior5 q).
    + apply isEqual_refl.
    + now apply isEqual_neq.
Qed.

Lemma floodFill_outside parseColor blend stack ctx p sc :
  inCanvas p ctx = false ->
  floodFill parseColor blend (S stack) ctx p sc = mkRun ctx [] true.
Proof. intros H. cbn [floodFill]. now rewrite H. Qed.

(** C3. When the foreground colour differs from the colour read at the
    seed, the flood fill started by the Bucket tool returns (a stack deeper
    than the number of pixels of the seed colour is enough), it repaints no
    pixel twice, every pixel it repaints belongs to the 4-connected region
    of the seed colour around the seed, and so the number of repainted
    pixels is at most the size of any enumeration of that region. *)
Theorem floodFill_terminates_within_region
  (parseColor : string -> Colord) (blend : string -> Colord -> Colord)
  (fg : string) (cv : HTMLCanvasElement)
  (seed : Point) (stack : nat) :
  parseColor fg <> getPixelColor seed (bucketContext fg cv) ->
  (countColor (getPixelColor seed (bucketContext fg cv)) cv < stack)%nat ->
  let r := floodFill parseColor blend stack (bucketContext fg cv) seed None in
  returned r = true
  /\ NoDup (painted r)
  /\ (forall q, In q (painted r) ->
        region cv (getPixelColor seed (bucketContext fg cv)) seed q)
  /\ (forall R : list Point,
        (forall q, region cv (getPixelColor seed (bucketContext fg cv)) seed q ->
                   In q R) ->
        (List.length (painted r) <= List.length R)%nat).
Proof.
  intros Hfg Hn r.
  destruct (inCanvas seed (bucketContext fg cv)) eqn:Hin.
  - rewrite (getPixelColor_inCanvas _ _ Hin) in *. simpl in Hfg, Hn |- *.
    rewrite inCanvas_inBounds in Hin. simpl in Hin.
    destruct (bucket_fill_correct parseColor blend fg cv seed stack Hin Hfg Hn)
      as (Hret & Hnd & Hreg & _).
    fold r in Hret, Hnd, Hreg.
    repeat split; auto.
    + intros q Hq. now apply Hreg.
    + intros R HR. apply NoDup_incl_length; [assumption|].
      intros q Hq. apply HR. now apply Hreg.
  - destruct stack as [|n]; [lia|].
    subst r. rewrite (floodFill_outside _ _ _ _ _ _ Hin). simpl.
    repeat split; auto using NoDup_nil; try contradiction. intros; lia.
Qed.

Lemma floodFill_terminates_within_region_witness :
  returned (floodFill parseHex8 sourceOver8 5 (bucketContext "#0000ffff" (uniform 2 2 opaqueRed))
                      (mkPoint 0 0) None) = true.
Proof.
  refine (proj1 (floodFill_terminates_within_region parseHex8 sourceOver8 "#0000ffff"
                   (uniform 2 2 opaqueRed) (mkPoint 0 0) 5 _ _)).
  - vm_compute. discriminate.
  - vm_compute. lia.
Defined.

(** C5. On a 5x5 surface whose one-pixel border has colour [X] and whose
    3x3 interior has another colour [Y], a fill at the centre with a
    foreground colour other than [Y] returns, repaints exactly the nine
    interior pixels, each once, and leaves every other pixel as it was;
    and a call on a point outside the surface returns at once without
    changing or recording anything. *)
Theorem floodFill_respects_border
  (parseColor : string -> Colord) (blend : string -> Colord -> Colord)
  (fg : string) (cv : HTMLCanvasElement)
  (X Y : Colord) (stack : nat) :
  width cv = 5 -> height cv = 5 ->
  (forall q, inBounds cv q = true ->
     pixels cv q = if interior5 q then Y else X) ->
  X <> Y -> parseColor fg <> Y -> (9 < stack)%nat ->
  let r := floodFill parseColor blend stack (bucketContext fg cv) (mkPoint 2 2) None in
  returned r = true
  /\ (forall q, In q (painted r) <-> interior5 q = true)
  /\ NoDup (painted r)
  /\ List.length (painted r) = 9%nat
  /\ (forall q, pixels (canvas (final r)) q
                = if interior5 q then parseColor fg else pixels cv q)
  /\ (forall ctx p sc n, inCanvas p ctx = false ->
        floodFill parseColor blend (S n) ctx p sc = mkRun ctx [] true).
Proof.
  intros Hw Hh Hpix Hxy Hfg Hn r.
  assert (Hb : inBounds cv (mkPoint 2 2) = true)
    by (unfold inBounds; rewrite Hw, Hh; reflexivity).
  assert (Hc : pixels cv (mkPoint 2 2) = Y) by now rewrite (Hpix _ Hb).
  assert (Hcount := countColor_interior5 cv X Y Hw Hh Hpix Hxy).
  destruct (bucket_fill_correct parseColor blend fg cv (mkPoint 2 2) stack Hb)
    as (Hret & Hnd & Hreg & Hpaint & Hrest & _);
    [now rewrite Hc | rewrite Hc; lia |].
  fold r in Hret, Hnd, Hreg, Hpaint, Hrest. rewrite Hc in Hreg.
  assert (Hiff : forall q, In q (painted r) <-> interior5 q = true).
  { intros q. rewrite Hreg. now apply region_interior5 with (X := X). }
  split; [assumption|]. split; [assumption|]. split; [assumption|].
  split; [|split].
  - set (nine := filter interior5 (allPixels (bordered X Y))).
    assert (Hnine : forall q, In q nine <-> interior5 q = true).
    { intros q. unfold nine. rewrite filter_In. split; [tauto|].
      intros Hq. split; [|assumption]. apply allPixels_In.
      unfold interior5, inBounds in *; simpl.
      rewrite !andb_true_iff, !Z.leb_le in Hq.
      rewrite !andb_true_iff, !Z.leb_le, !Z.ltb_lt. lia. }
    assert (Hnd9 : NoDup nine).
    { vm_compute. repeat constructor; simpl; intuition discriminate. }
    apply Nat.le_antisymm.
    + change 9%nat with (List.length nine).
      apply NoDup_incl_length; [assumption|].
      intros q Hq. apply Hnine. now apply Hiff.
    + change 9%nat with (List.length nine).
      apply NoDup_incl_length; [assumption|].
      intros q Hq. apply Hiff. now apply Hnine.
  - intros q. destruct (interior5 q) eqn:Hq.
    + apply Hpaint. now apply Hiff.
    + apply Hrest. rewrite Hiff. congruence.
  - intros ctx p sc n. apply floodFill_outside.
Qed.

Lemma floodFill_respects_border_witness :
  List.length (painted (floodFill parseHex8 sourceOver8 10
     (bucketContext "#ff0000ff" (bordered opaqueBlue transparentBlack))
     (mkPoint 2 2) None)) = 9%nat.
Proof.
  refine (proj1 (proj2 (proj2 (proj2
    (floodFill_respects_border parseHex8 sourceOver8 "#ff0000ff"
       (bordered opaqueBlue transparentBlack) opaqueBlue transparentBlack 10
       eq_refl eq_refl _ _ _ _))))).
  - intros q _. reflexivity.
  - discriminate.
  - vm_compute. discriminate.
  - lia.
Defined.

Lemma andThen_head r k v l :
  visits r = v :: l ->
  exists l', visits (r ;; k) = v :: l'
             /\ forall u, In u l' -> In u l \/ In u (visits (k (final r))).
Proof.
  intros H. unfold andThen. destruct (returned r); simpl.
  - rewrite H. simpl. eexists. split; [reflexivity|].
    intros u Hu. now apply in_app_or.
  - exists l. auto.
Qed.

(** C4. The Bucket tool calls [floodFill] on the last point with no colour
    to look for: whatever the colour of that pixel, if it lies inside the
    surface it ends up with the foreground colour, and this holds however
    the run ends. The first comparison recorded is the one at the seed,
    with no sought colour; every later comparison, at any depth, looks for
    the colour the seed had on the surface the tool was given. *)
Theorem Bucket_seed_colour_is_fixed
  (parseColor : string -> Colord) (blend : string -> Colord -> Colord)
  (st : ToolboxState) (points : list Point)
  (cv : HTMLCanvasElement) (seed : Point) (stack : nat) :
  item points (len points - 1) = Some seed ->
  inBounds cv seed = true ->
  exists r rest,
    Bucket_use parseColor blend (S stack) st points cv = Some r
    /\ pixels (canvas (final r)) seed = parseColor (fgColor st)
    /\ visits r = mkVisit seed (pixels cv seed) None :: rest
    /\ forall v, In v rest -> wanted v = Some (pixels cv seed).
Proof.
  intros Hlast Hb. unfold Bucket_use. rewrite Hlast.
  set (ctx := setFillStyle (fgColor st) (getContext cv)).
  assert (Hin : inCanvas seed ctx = true) by now rewrite inCanvas_inBounds.
  assert (Hpix : getPixelColor seed ctx = pixels cv seed)
    by now rewrite (getPixelColor_inCanvas _ _ Hin).
  cbn [floodFill]. rewrite Hin, Hpix. cbn [negb].
  set (r0 := mkRun (paintPixel parseColor blend seed (erasePixel seed ctx))
                   [mkVisit seed (pixels cv seed) None] true).
  match goal with
  | |- exists r rest, Some (r0 ;; ?k1 ;; ?k2 ;; ?k3 ;; ?k4) = Some r /\ _ =>
      set (f1 := k1); set (f2 := k2); set (f3 := k3); set (f4 := k4)
  end.
  destruct (andThen_head r0 f1 _ _ eq_refl) as (l1 & E1 & H1).
  destruct (andThen_head (r0 ;; f1) f2 _ _ E1) as (l2 & E2 & H2).
  destruct (andThen_head (r0 ;; f1 ;; f2) f3 _ _ E2) as (l3 & E3 & H3).
  destruct (andThen_head (r0 ;; f1 ;; f2 ;; f3) f4 _ _ E3) as (l4 & E4 & H4).
  exists (r0 ;; f1 ;; f2 ;; f3 ;; f4), l4.
  split; [reflexivity|]. split; [|split; [exact E4|]].
  - assert (Hkeep : forall c q,
              holds parseColor (fgColor st) seed c ->
              holds parseColor (fgColor st) seed
                (final (floodFill parseColor blend stack c q (Some (pixels cv seed))))).
    { intros c q Hc.
      apply (floodFill_inv parseColor blend (holds parseColor (fgColor st) seed)); auto.
      intros c' p' Hc' _ _. now apply holds_repaint. }
    assert (Hend : holds parseColor (fgColor st) seed
                     (final (r0 ;; f1 ;; f2 ;; f3 ;; f4))).
    { repeat (apply andThen_inv; [|intros c Hc; now apply Hkeep]).
      cbn [final r0].
      destruct (repaint_spec parseColor blend ctx seed eq_refl)
        as [(_ & _ & Hs & Ht) Hp].
      repeat split; auto.
      rewrite Hp. change (canvas ctx) with cv. rewrite Hb. simpl.
      now rewrite (proj2 (Point_eqb_eq seed seed) eq_refl). }
    apply Hend.
  - intros v Hv.
    apply H4 in Hv as [Hv | Hv]; [|now apply floodFill_wanted in Hv].
    apply H3 in Hv as [Hv | Hv]; [|now apply floodFill_wanted in Hv].
    apply H2 in Hv as [Hv | Hv]; [|now apply floodFill_wanted in Hv].
    apply H1 in Hv as [[] | Hv]. now apply floodFill_wanted in Hv.
Qed.

Lemma Bucket_seed_colour_is_fixed_witness :
  exists r rest,
    Bucket_use parseHex8 sourceOver8 4 (mkToolbox "#ff0000ff" "#00000000" 1)
               [mkPoint 0 0; mkPoint 1 0] (uniform 2 1 opaqueRed) = Some r
    /\ pixels (canvas (final r)) (mkPoint 1 0) = parseHex8 "#ff0000ff"
    /\ visits r = mkVisit (mkPoint 1 0) opaqueRed None :: rest
    /\ forall v, In v rest -> wanted v = Some opaqueRed.
Proof.
  apply (Bucket_seed_colour_is_fixed parseHex8 sourceOver8
           (mkToolbox "#ff0000ff" "#00000000" 1)
           [mkPoint 0 0; mkPoint 1 0] (uniform 2 1 opaqueRed) (mkPoint 1 0) 3).
  - reflexivity.
  - reflexivity.
Defined.

Lemma floodFill_top_untouched parseColor blend s cv stack ctx p :
  untouched s cv ctx ->
  (inBounds cv p = true -> pixels cv p = parseColor s) ->
  untouched s cv (final (floodFill parseColor blend stack ctx p None)).
Proof.
  intros Hu Hp.
  destruct (inCanvas p ctx) eqn:Hin.
  - pose proof Hu as (Ht & Hs & Hw & Hh & Hpix).
    assert (Hc : pixels (canvas ctx) p = parseColor s).
    { rewrite Hpix. apply Hp. rewrite inCanvas_inBounds in Hin.
      unfold inBounds in *. now rewrite <- Hw, <- Hh. }
    apply (floodFill_top_inv parseColor blend (untouched s cv)); auto.
    intros c q Hcu _ Hq. apply untouched_repaint; auto. congruence.
  - destruct stack as [|n]; [exact Hu|].
    now rewrite (floodFill_outside _ _ _ _ _ _ Hin).
Qed.

(** The fill the Bucket tool starts on a seed that already has the
    foreground colour and has a neighbour of that colour never returns:
    every stack depth is exhausted. *)
Lemma Bucket_same_colour_diverges parseColor blend fg cv seed q stack :
  inBounds cv seed = true -> inBounds cv q = true ->
  In q (neighbours seed) ->
  pixels cv seed = parseColor fg -> pixels cv q = parseColor fg ->
  returned (floodFill parseColor blend stack (bucketContext fg cv) seed None) = false.
Proof.
  intros Bs Bq Hn Hs Hq. destruct stack as [|n]; [reflexivity|].
  apply floodFill_step_diverges with (s := fg) (q := q); auto.
  - repeat split; auto.
  - intros c Hc. apply floodFill_diverges with (q := seed).
    + now apply holdsPair_swap.
    + now apply neighbours_sym.
Qed.

(** C1 (the behaviour of the code). On a 2x1 surface of opaque red, the
    Bucket tool used at (0,0) with opaque red as foreground changes no
    pixel, but its flood fill does not return at any stack depth: the two
    pixels keep sending the recursion to each other. *)
Theorem Bucket_same_colour_overflows (stack : nat) :
  exists r,
    Bucket_use parseHex8 sourceOver8 stack (mkToolbox "#ff0000ff" "#00000000" 1)
               [mkPoint 0 0] (uniform 2 1 opaqueRed) = Some r
    /\ returned r = false
    /\ forall q, pixels (canvas (final r)) q = pixels (uniform 2 1 opaqueRed) q.
Proof.
  eexists. split; [reflexivity|]. split.
  - apply (Bucket_same_colour_diverges parseHex8 sourceOver8 "#ff0000ff"
             (uniform 2 1 opaqueRed) (mkPoint 0 0) (mkPoint 1 0));
      try reflexivity. simpl. auto.
  - apply (floodFill_top_untouched parseHex8 sourceOver8 "#ff0000ff" (uniform 2 1 opaqueRed)).
    + repeat split.
    + reflexivity.
Qed.

(** ** The Line tool *)

Lemma item_nth {A : Type} (l : list A) (n : nat) :
  item l (Z.of_nat n) = nth_error l n.
Proof.
  unfold item. destruct (Z.of_nat n <? 0) eqn:E.
  - apply Z.ltb_lt in E. lia.
  - now rewrite Nat2Z.id.
Qed.

(** C2 as stated fails: with three points the segment does not end at the
    last point. *)
Lemma Line_does_not_reach_last_point :
  ~ (forall (st : ToolboxState) (points : list Point),
       2 <= len points ->
       Line_use st points
       = [drawLine (item points 1) (item points (len points - 1))
                   (fgColor st) (brushSize st)]).
Proof.
  intros H.
  specialize (H (mkToolbox "#000000ff" "#ffffffff" 1)
                [mkPoint 0 0; mkPoint 1 1; mkPoint 5 5]).
  assert (Hlen : 2 <= len [mkPoint 0 0; mkPoint 1 1; mkPoint 5 5])
    by (vm_compute; discriminate).
  specialize (H Hlen). vm_compute in H. discriminate H.
Qed.

(** C2 (amended). The Line tool makes exactly one [drawLine] call, with the
    foreground colour and the brush size. With at least two points the
    segment runs from the second point to the second-to-last point (with
    exactly two points: from the second to the first); with a single point
    it is the dot at that point. *)
Theorem Line_draws_second_to_second_last
  (st : ToolboxState) (points : list Point) :
  (2 <= List.length points)%nat ->
  (exists p q,
     nth_error points 1 = Some p
     /\ nth_error points (List.length points - 2) = Some q
     /\ Line_use st points
        = [drawLine (Some p) (Some q) (fgColor st) (brushSize st)])
  /\ (forall p, Line_use st [p]
                = [drawLine (Some p) (Some p) (fgColor st) (brushSize st)]).
Proof.
  intros Hlen. split; [|reflexivity].
  destruct (nth_error points 1) as [p|] eqn:Hp.
  2:{ apply nth_error_None in Hp. lia. }
  destruct (nth_error points (List.length points - 2)) as [q|] eqn:Hq.
  2:{ apply nth_error_None in Hq. lia. }
  exists p, q. repeat split. unfold Line_use.
  assert (H1 : (len points >? 1) = true)
    by (unfold len; apply Z.gtb_lt; lia).
  rewrite H1.
  replace (Z.max 0 (len points - 2)) with (Z.of_nat (List.length points - 2))
    by (unfold len; lia).
  change 1 with (Z.of_nat 1). now rewrite !item_nth, Hp, Hq.
Qed.

Lemma Line_draws_second_to_second_last_witness :
  Line_use (mkToolbox "#000000ff" "#ffffffff" 1)
           [mkPoint 0 0; mkPoint 1 1; mkPoint 4 2; mkPoint 5 5]
  = [drawLine (Some (mkPoint 1 1)) (Some (mkPoint 4 2)) "#000000ff" 1].
Proof.
  destruct (Line_draws_second_to_second_last
              (mkToolbox "#000000ff" "#ffffffff" 1)
              [mkPoint 0 0; mkPoint 1 1; mkPoint 4 2; mkPoint 5 5])
    as [(p & q & Hp & Hq & H) _].
  - simpl. lia.
  - simpl in Hp, Hq. injection Hp as <-. injection Hq as <-. exact H.
Defined.

(** ** The Eyedropper tool *)

Lemma padStart_twoHexDigits (i : byte) :
  padStart 2 "0" (toString16 i) = twoHexDigits i.
Proof. destruct i; reflexivity. Qed.

Lemma twoHexDigits_zero (i : byte) :
  String.eqb (twoHexDigits i) "00" = Byte.eqb i x00.
Proof. destruct i; reflexivity. Qed.

Lemma eqb_four_pairs (a b c d : byte) :
  String.eqb (twoHexDigits a ++ twoHexDigits b ++ twoHexDigits c
              ++ twoHexDigits d) "00000000"
  = String.eqb (twoHexDigits a) "00" && String.eqb (twoHexDigits b) "00"
    && String.eqb (twoHexDigits c) "00" && String.eqb (twoHexDigits d) "00".
Proof.
  unfold twoHexDigits. cbn [append String.eqb].
  repeat match goal with
  | |- context [Ascii.eqb ?u ?v] => generalize (Ascii.eqb u v); intro
  end.
  repeat match goal with b : bool |- _ => destruct b end; reflexivity.
Qed.

(** C6. The Eyedropper tool reads the pixel at the last point of the
    sequence on the working surface. If all four channels read zero (fully
    transparent black) the configuration is returned as it was; otherwise
    only the foreground colour changes, to "#" followed by the two
    zero-padded hexadecimal digits of the red, green, blue and alpha
    channels, nine characters in all. *)
Theorem Eyedropper_picks_colour
  (st : ToolboxState) (points : list Point) (cv : HTMLCanvasElement)
  (lastPoint : Point) :
  item points (len points - 1) = Some lastPoint ->
  let data := getImageData (x lastPoint) (y lastPoint) (getContext cv) in
  let text := ("#" ++ twoHexDigits (red data) ++ twoHexDigits (green data)
               ++ twoHexDigits (blue data) ++ twoHexDigits (alpha data))%string in
  (data = transparentBlack -> Eyedropper_use st points cv = Some st)
  /\ (data <> transparentBlack ->
      Eyedropper_use st points cv
      = Some (mkToolbox text (bgColor st) (brushSize st)))
  /\ String.length text = 9%nat.
Proof.
  intros Hlast data text. unfold Eyedropper_use. rewrite Hlast.
  fold data. cbn [map String.concat].
  rewrite !padStart_twoHexDigits.
  change (twoHexDigits (red data) ++ "" ++ twoHexDigits (green data) ++ ""
          ++ twoHexDigits (blue data) ++ "" ++ twoHexDigits (alpha data))%string
    with (twoHexDigits (red data) ++ twoHexDigits (green data)
          ++ twoHexDigits (blue data) ++ twoHexDigits (alpha data))%string.
  rewrite eqb_four_pairs, !twoHexDigits_zero.
  change (Byte.eqb (red data) x00 && Byte.eqb (green data) x00
          && Byte.eqb (blue data) x00 && Byte.eqb (alpha data) x00)
    with (isEqual data transparentBlack).
  repeat split.
  - intros H. now rewrite (proj2 (isEqual_eq _ _) H).
  - intros H. now rewrite (proj2 (isEqual_neq _ _) H).
Qed.

Lemma Eyedropper_picks_colour_witness :
  Eyedropper_use (mkToolbox "#000000ff" "#ffffffff" 3) [mkPoint 0 0; mkPoint 1 0]
                 (uniform 2 1 (rgba x01 x0a xff x80))
  = Some (mkToolbox "#010aff80" "#ffffffff" 3).
Proof.
  refine (proj1 (proj2 (Eyedropper_picks_colour
            (mkToolbox "#000000ff" "#ffffffff" 3) [mkPoint 0 0; mkPoint 1 0]
            (uniform 2 1 (rgba x01 x0a xff x80)) (mkPoint 1 0) _)) _).
  - reflexivity.
  - vm_compute. discriminate.
Defined.

(** ** The Rectangle tool *)

Ltac bool_to_prop :=
  unfold covers, inBox, onFrame, inBounds in *;
  rewrite ?andb_true_iff, ?orb_true_iff, ?andb_false_iff, ?orb_false_iff,
    ?Z.leb_le, ?Z.ltb_lt, ?Z.leb_gt, ?Z.ltb_ge, ?Z.eqb_eq, ?Z.eqb_neq in *.

Lemma bbox_brush_spec points b start end_ :
  getBoundingBoxIncludingBrush points b = Some (start, end_) ->
  1 <= b ->
  x start + b - 1 <= x end_ /\ y start + b - 1 <= y end_.
Proof.
  unfold getBoundingBoxIncludingBrush, min4, max4.
  destruct (item points 0) as [s|]; [|discriminate].
  destruct (item points (len points - 1)) as [e|]; [|discriminate].
  intros H Hb. injection H as <- <-. simpl. lia.
Qed.

Lemma bbox_brush_ends points b first last :
  item points 0 = Some first -> item points (len points - 1) = Some last ->
  getBoundingBoxIncludingBrush points b
  = Some (mkPoint (min4 (x first) (x first - b + 1) (x last) (x last - b + 1))
                  (min4 (y first) (y first - b + 1) (y last) (y last - b + 1)),
          mkPoint (max4 (x first) (x first - b + 1) (x last) (x last - b + 1))
                  (max4 (y first) (y first - b + 1) (y last) (y last - b + 1))).
Proof.
  intros H0 H1. unfold getBoundingBoxIncludingBrush. now rewrite H0, H1.
Qed.

Lemma covers_forward ox oy w h q :
  0 <= w -> 0 <= h ->
  (covers ox oy w h q = true
   <-> (ox <= x q < ox + w) /\ (oy <= y q < oy + h)).
Proof.
  intros Hw Hh. unfold covers.
  rewrite (Z.min_l ox (ox + w)), (Z.max_r ox (ox + w)),
    (Z.min_l oy (oy + h)), (Z.max_r oy (oy + h)) by lia.
  rewrite !andb_true_iff, !Z.leb_le, !Z.ltb_lt. tauto.
Qed.

Lemma covers_backward ox oy w h q :
  w <= 0 -> h <= 0 ->
  (covers ox oy w h q = true
   <-> (ox + w <= x q < ox) /\ (oy + h <= y q < oy)).
Proof.
  intros Hw Hh. unfold covers.
  rewrite (Z.min_r ox (ox + w)), (Z.max_l ox (ox + w)),
    (Z.min_r oy (oy + h)), (Z.max_l oy (oy + h)) by lia.
  rewrite !andb_true_iff, !Z.leb_le, !Z.ltb_lt. tauto.
Qed.

Lemma inBox_iff start end_ q :
  inBox start end_ q = true
  <-> (x start <= x q <= x end_) /\ (y start <= y q <= y end_).
Proof.
  unfold inBox. rewrite !andb_true_iff, !Z.leb_le. tauto.
Qed.

Lemma onFrame_iff start end_ b q :
  onFrame start end_ b q = true
  <-> x q < x start + b \/ x end_ - b < x q
      \/ y q < y start + b \/ y end_ - b < y q.
Proof.
  unfold onFrame. rewrite !orb_true_iff, !Z.ltb_lt. tauto.
Qed.

Section RectangleCover.

Variables (start end_ : Point) (b : Z).
Hypothesis Hb : 1 <= b.
Hypothesis Hx : x start + b - 1 <= x end_.
Hypothesis Hy : y start + b - 1 <= y end_.

(** The background fill covers exactly the box. *)
Lemma cover_box q :
  covers (x start) (y start) (x end_ - x start + 1) (y end_ - y start + 1) q
  = inBox start end_ q.
Proof.
  apply Bool.eq_iff_eq_true.
  rewrite covers_forward, inBox_iff by lia. lia.
Qed.

(** The four strips together cover exactly the frame of the box. *)
Lemma cover_frame q :
  covers (x start) (y start) (x end_ - x start + 1) b q
  || covers (x end_ + 1) (y end_ + 1) (- (x end_ - x start + 1)) (- b) q
  || covers (x start) (y start) b (y end_ - y start + 1) q
  || covers (x end_ + 1) (y end_ + 1) (- b) (- (y end_ - y start + 1)) q
  = inBox start end_ q && onFrame start end_ b q.
Proof.
  apply Bool.eq_iff_eq_true.
  rewrite !orb_true_iff, andb_true_iff, inBox_iff, onFrame_iff.
  rewrite (covers_forward _ _ (x end_ - x start + 1) b),
    (covers_backward _ _ (- (x end_ - x start + 1)) (- b)),
    (covers_forward _ _ b (y end_ - y start + 1)),
    (covers_backward _ _ (- b) (- (y end_ - y start + 1))) by lia.
  split.
  - intros [[[Hc | Hc] | Hc] | Hc].
    + split; [lia|]. right; right; left. lia.
    + split; [lia|]. right; right; right. lia.
    + split; [lia|]. left. lia.
    + split; [lia|]. right; left. lia.
  - intros [Hin [Hc | [Hc | [Hc | Hc]]]].
    + left; right. lia.
    + right. lia.
    + left; left; left. lia.
    + left; left; right. lia.
Qed.

End RectangleCover.

Lemma styledFill_spec parseColor blend ctx s ox oy w h :
  translation ctx = origin ->
  let c := styledFill parseColor blend ctx (s, (ox, oy, w, h)) in
  translation c = origin
  /\ width (canvas c) = width (canvas ctx)
  /\ height (canvas c) = height (canvas ctx)
  /\ forall q, pixels (canvas c) q
               = if inBounds (canvas ctx) q && covers ox oy w h q
                 then paintOver parseColor blend s (pixels (canvas ctx) q)
                 else pixels (canvas ctx) q.
Proof.
  intros Ht. simpl. rewrite Ht. simpl. rewrite !Z.add_0_r.
  repeat split.
Qed.

(** A sequence of fills leaves on each pixel of the surface the styles of
    the fills that cover it, painted one over the other in order. *)
Lemma fills_fold_spec parseColor blend fills : forall ctx,
  translation ctx = origin ->
  width (canvas (fold_left (styledFill parseColor blend) fills ctx))
  = width (canvas ctx)
  /\ height (canvas (fold_left (styledFill parseColor blend) fills ctx))
     = height (canvas ctx)
  /\ forall q,
       pixels (canvas (fold_left (styledFill parseColor blend) fills ctx)) q
       = if inBounds (canvas ctx) q
         then paintAll parseColor blend (stylesAt fills q) (pixels (canvas ctx) q)
         else pixels (canvas ctx) q.
Proof.
  induction fills as [|[s [[[ox oy] w] h]] fills IH]; intros ctx Ht.
  - repeat split. intros q. now destruct (inBounds (canvas ctx) q).
  - cbn [fold_left].
    destruct (styledFill_spec parseColor blend ctx s ox oy w h Ht)
      as (T1 & W1 & H1 & P1).
    set (c1 := styledFill parseColor blend ctx (s, (ox, oy, w, h))) in *.
    destruct (IH c1 T1) as (W & H & P).
    split; [congruence|]. split; [congruence|].
    intros q. rewrite P, P1.
    assert (B : inBounds (canvas c1) q = inBounds (canvas ctx) q)
      by (unfold inBounds; now rewrite W1, H1).
    rewrite B. unfold stylesAt. cbn [filter].
    destruct (inBounds (canvas ctx) q); [|reflexivity].
    destruct (covers ox oy w h q); reflexivity.
Qed.

Lemma paintOver_opaque parseColor blend s d :
  opaqueStyle parseColor blend s -> paintOver parseColor blend s d = parseColor s.
Proof.
  intros Hs. unfold paintOver. destruct (isEqual d transparentBlack); auto.
Qed.

Lemma paintAll_repeat_opaque parseColor blend s k d :
  opaqueStyle parseColor blend s ->
  paintAll parseColor blend (repeat s (S k)) d = parseColor s.
Proof.
  intros Hs. revert d. induction k as [|k IH]; intros d.
  - simpl. now apply paintOver_opaque.
  - change (repeat s (S (S k))) with (s :: repeat s (S k)).
    unfold paintAll in *. cbn [fold_left]. apply IH.
Qed.

(** The styles the five fills of the Rectangle tool paint over a pixel:
    none outside the box, the background alone in the interior, the
    background and then the foreground, once for each strip that covers
    the pixel, on the frame. *)
Lemma Rectangle_styles st start end_ q :
  1 <= brushSize st ->
  x start + brushSize st - 1 <= x end_ ->
  y start + brushSize st - 1 <= y end_ ->
  let fills :=
    [ (bgColor st, (x start, y start, x end_ - x start + 1, y end_ - y start + 1));
      (fgColor st, (x start, y start, x end_ - x start + 1, brushSize st));
      (fgColor st, (x end_ + 1, y end_ + 1, - (x end_ - x start + 1), - brushSize st));
      (fgColor st, (x start, y start, brushSize st, y end_ - y start + 1));
      (fgColor st, (x end_ + 1, y end_ + 1, - brushSize st, - (y end_ - y start + 1))) ] in
  (inBox start end_ q = false -> stylesAt fills q = [])
  /\ (inBox start end_ q = true -> onFrame start end_ (brushSize st) q = false ->
      stylesAt fills q = [bgColor st])
  /\ (inBox start end_ q = true -> onFrame start end_ (brushSize st) q = true ->
      exists k, (1 <= k <= 4)%nat
                /\ stylesAt fills q = bgColor st :: repeat (fgColor st) k).
Proof.
  intros Hb Hx Hy fills.
  assert (E1 := cover_box start end_ (brushSize st) Hb Hx Hy q).
  assert (E2 := cover_frame start end_ (brushSize st) Hb Hx Hy q).
  subst fills. unfold stylesAt. cbn [filter].
  destruct (covers (x start) (y start) (x end_ - x start + 1)
                   (y end_ - y start + 1) q),
    (covers (x start) (y start) (x end_ - x start + 1) (brushSize st) q),
    (covers (x end_ + 1) (y end_ + 1) (- (x end_ - x start + 1))
            (- brushSize st) q),
    (covers (x start) (y start) (brushSize st) (y end_ - y start + 1) q),
    (covers (x end_ + 1) (y end_ + 1) (- brushSize st)
            (- (y end_ - y start + 1)) q),
    (inBox start end_ q), (onFrame start end_ (brushSize st) q);
    cbn [map fst orb andb] in *; try discriminate;
    (split; [|split]); intros; try discriminate; try reflexivity;
    first [ exists 1%nat; split; [lia | reflexivity]
          | exists 2%nat; split; [lia | reflexivity]
          | exists 3%nat; split; [lia | reflexivity]
          | exists 4%nat; split; [lia | reflexivity] ].
Qed.

(** What the Rectangle tool leaves on the surface. *)
Lemma Rectangle_use_pixels parseColor blend st points cv start end_ :
  getBoundingBoxIncludingBrush points (brushSize st) = Some (start, end_) ->
  exists fills r,
    Rectangle_fills st points = Some fills
    /\ fills =
       [ (bgColor st, (x start, y start, x end_ - x start + 1, y end_ - y start + 1));
         (fgColor st, (x start, y start, x end_ - x start + 1, brushSize st));
         (fgColor st, (x end_ + 1, y end_ + 1, - (x end_ - x start + 1), - brushSize st));
         (fgColor st, (x start, y start, brushSize st, y end_ - y start + 1));
         (fgColor st, (x end_ + 1, y end_ + 1, - brushSize st, - (y end_ - y start + 1))) ]
    /\ Rectangle_use parseColor blend st points cv = Some r
    /\ width r = width cv /\ height r = height cv
    /\ forall q, pixels r q
         = if inBounds cv q
           then paintAll parseColor blend (stylesAt fills q) (pixels cv q)
           else pixels cv q.
Proof.
  intros Hbox. unfold Rectangle_use, Rectangle_fills. rewrite Hbox.
  eexists _, _. split; [reflexivity|]. split; [reflexivity|].
  split; [reflexivity|].
  exact (fills_fold_spec parseColor blend _ (getContext cv) eq_refl).
Qed.

(** With opaque colours the last style painted is the one that shows. *)
Lemma Rectangle_use_opaque parseColor blend st points cv start end_ :
  getBoundingBoxIncludingBrush points (brushSize st) = Some (start, end_) ->
  1 <= brushSize st ->
  opaqueStyle parseColor blend (fgColor st) ->
  opaqueStyle parseColor blend (bgColor st) ->
  exists r,
    Rectangle_use parseColor blend st points cv = Some r
    /\ width r = width cv /\ height r = height cv
    /\ forall q, pixels r q
         = if inBounds cv q && inBox start end_ q
           then (if onFrame start end_ (brushSize st) q
                 then parseColor (fgColor st) else parseColor (bgColor st))
           else pixels cv q.
Proof.
  intros Hbox Hb Hfg Hbg.
  destruct (bbox_brush_spec _ _ _ _ Hbox Hb) as [Hx Hy].
  destruct (Rectangle_use_pixels parseColor blend st points cv _ _ Hbox)
    as (fills & r & _ & -> & Hr & W & H & P).
  exists r. split; [exact Hr|]. split; [exact W|]. split; [exact H|].
  intros q. rewrite P.
  destruct (Rectangle_styles st start end_ q Hb Hx Hy) as (S0 & S1 & S2).
  destruct (inBounds cv q); [|reflexivity]. cbn [andb].
  destruct (inBox start end_ q).
  - destruct (onFrame start end_ (brushSize st) q).
    + destruct (S2 eq_refl eq_refl) as (k & Hk & ->).
      destruct k as [|k]; [lia|].
      unfold paintAll. cbn [fold_left].
      now apply (paintAll_repeat_opaque parseColor blend).
    + rewrite (S1 eq_refl eq_refl). unfold paintAll. cbn [fold_left].
      now apply paintOver_opaque.
  - now rewrite (S0 eq_refl).
Qed.

(** The values a translucent foreground and background leave on an opaque
    red surface: neither the interior nor the frame ends in the colour it
    was painted with, and a corner, painted by two strips, differs from an
    edge. *)
Lemma Rectangle_translucent_example :
  exists r,
    Rectangle_use parseHex8 sourceOver8 (mkToolbox "#0000ff80" "#00ff0080" 1)
                  [mkPoint 2 2; mkPoint 10 10] (uniform 16 16 opaqueRed) = Some r
    /\ pixels r (mkPoint 5 5) = rgba x7f x80 x00 xff
    /\ pixels r (mkPoint 2 5) = rgba x3f x40 x80 xff
    /\ pixels r (mkPoint 2 2) = rgba x1f x20 xc0 xff.
Proof.
  eexists. split; [reflexivity|]. repeat split; vm_compute; reflexivity.
Qed.

(** C7 as stated fails: with translucent colours on a painted surface the
    interior of the rectangle does not end in the background colour. *)
Lemma Rectangle_translucent_colours_blend :
  ~ (forall (parseColor : string -> Colord)
            (blend : string -> Colord -> Colord)
            (st : ToolboxState) (cv r : HTMLCanvasElement),
       brushSize st = 1 ->
       Rectangle_use parseColor blend st [mkPoint 2 2; mkPoint 10 10] cv = Some r ->
       forall q, pixels r q
         = if inBounds cv q
              && ((2 <=? x q) && (x q <=? 10) && (2 <=? y q) && (y q <=? 10))
           then (if (x q =? 2) || (x q =? 10) || (y q =? 2) || (y q =? 10)
                 then parseColor (fgColor st) else parseColor (bgColor st))
           else pixels cv q).
Proof.
  intros H.
  specialize (H parseHex8 sourceOver8 (mkToolbox "#0000ff80" "#00ff0080" 1)
                (uniform 16 16 opaqueRed) _ eq_refl eq_refl (mkPoint 5 5)).
  vm_compute in H. discriminate H.
Qed.

(** C7 (amended). The Rectangle tool first paints the whole brush-inflated
    bounding box of the first and last points with the background colour
    and then makes four fills with the foreground colour, each paint
    composited over what is there: a pixel outside the box is painted with
    nothing, a pixel of the box further than [brushSize] from every edge
    with the background alone, and a pixel within [brushSize] of an edge
    with the background and then, once for each strip that covers it, the
    foreground. When both colours are opaque, the frame ends in the
    foreground colour, the rest of the box in the background colour, and
    no pixel outside the box changes. For the points (2,2) and (10,10) and
    brush size 1 the box is x in [2,10], y in [2,10], and with opaque
    colours its one-pixel frame ends in the foreground colour and its
    interior in the background colour. *)
Theorem Rectangle_fills_then_frames
  (parseColor : string -> Colord) (blend : string -> Colord -> Colord)
  (st : ToolboxState) (points : list Point)
  (cv : HTMLCanvasElement) (first last : Point) :
  item points 0 = Some first ->
  item points (len points - 1) = Some last ->
  1 <= brushSize st ->
  exists start end_ strips r,
    getBoundingBoxIncludingBrush points (brushSize st) = Some (start, end_)
    /\ Rectangle_fills st points
       = Some ((bgColor st, (x start, y start,
                             x end_ - x start + 1, y end_ - y start + 1))
               :: strips)
    /\ List.length strips = 4%nat
    /\ Forall (fun f => fst f = fgColor st) strips
    /\ Rectangle_use parseColor blend st points cv = Some r
    /\ (forall q, pixels r q
          = if inBounds cv q
            then paintAll parseColor blend
                   (stylesAt ((bgColor st, (x start, y start,
                                            x end_ - x start + 1,
                                            y end_ - y start + 1)) :: strips) q)
                   (pixels cv q)
            else pixels cv q)
    /\ (forall q,
          let styles := stylesAt ((bgColor st, (x start, y start,
                                                x end_ - x start + 1,
                                                y end_ - y start + 1))
                                  :: strips) q in
          (inBox start end_ q = false -> styles = [])
          /\ (inBox start end_ q = true ->
              onFrame start end_ (brushSize st) q = false ->
              styles = [bgColor st])
          /\ (inBox start end_ q = true ->
              onFrame start end_ (brushSize st) q = true ->
              exists k, (1 <= k <= 4)%nat
                        /\ styles = bgColor st :: repeat (fgColor st) k))
    /\ (opaqueStyle parseColor blend (fgColor st) ->
        opaqueStyle parseColor blend (bgColor st) ->
        (forall q, pixels r q
           = if inBounds cv q && inBox start end_ q
             then (if onFrame start end_ (brushSize st) q
                   then parseColor (fgColor st) else parseColor (bgColor st))
             else pixels cv q)
        /\ (first = mkPoint 2 2 -> last = mkPoint 10 10 -> brushSize st = 1 ->
            forall q, pixels r q
              = if inBounds cv q
                   && ((2 <=? x q) && (x q <=? 10) && (2 <=? y q) && (y q <=? 10))
                then (if (x q =? 2) || (x q =? 10) || (y q =? 2) || (y q =? 10)
                      then parseColor (fgColor st) else parseColor (bgColor st))
                else pixels cv q))
    /\ (first = mkPoint 2 2 -> last = mkPoint 10 10 -> brushSize st = 1 ->
        start = mkPoint 2 2 /\ end_ = mkPoint 10 10).
Proof.
  intros H0 H1 Hb.
  pose proof (bbox_brush_ends points (brushSize st) first last H0 H1) as Hbox.
  destruct (bbox_brush_spec _ _ _ _ Hbox Hb) as [Hx Hy].
  destruct (Rectangle_use_pixels parseColor blend st points cv _ _ Hbox)
    as (fills & r & Hfills & Efills & Hr & _ & _ & Hpix).
  eexists _, _, _, r.
  split; [exact Hbox|].
  split; [unfold Rectangle_fills; rewrite Hbox; reflexivity|].
  split; [reflexivity|].
  split; [repeat constructor|].
  split; [exact Hr|].
  split; [intros q; rewrite Hpix, Efills; reflexivity|].
  split; [intros q; exact (Rectangle_styles st _ _ q Hb Hx Hy)|].
  split.
  - intros Ofg Obg.
    destruct (Rectangle_use_opaque parseColor blend st points cv _ _ Hbox Hb
                Ofg Obg) as (r' & Hr' & _ & _ & Hop).
    rewrite Hr in Hr'. injection Hr' as <-.
    split; [exact Hop|].
    intros -> -> Hone q. rewrite Hop, Hone.
    change (onFrame _ _ 1 q) with (onFrame (mkPoint 2 2) (mkPoint 10 10) 1 q).
    change (inBox _ _ q)
      with ((2 <=? x q) && (x q <=? 10) && (2 <=? y q) && (y q <=? 10)).
    destruct (inBounds cv q); simpl; [|reflexivity].
    destruct ((2 <=? x q) && (x q <=? 10) && (2 <=? y q) && (y q <=? 10)) eqn:Ein;
      [|reflexivity].
    replace (onFrame (mkPoint 2 2) (mkPoint 10 10) 1 q)
      with ((x q =? 2) || (x q =? 10) || (y q =? 2) || (y q =? 10));
      [reflexivity|].
    apply Bool.eq_iff_eq_true. unfold onFrame; simpl.
    rewrite !andb_true_iff, !Z.leb_le in Ein.
    rewrite !orb_true_iff, !Z.eqb_eq, !Z.ltb_lt. lia.
  - intros -> -> Hone. rewrite Hone. split; reflexivity.
Qed.

Lemma Rectangle_fills_then_frames_witness :
  exists r,
    Rectangle_use parseHex8 sourceOver8 (mkToolbox "#ff0000ff" "#0000ffff" 1)
                  [mkPoint 2 2; mkPoint 7 3; mkPoint 10 10]
                  (uniform 16 16 opaqueRed) = Some r
    /\ pixels r (mkPoint 2 5) = opaqueRed
    /\ pixels r (mkPoint 5 5) = opaqueBlue
    /\ pixels r (mkPoint 11 5) = opaqueRed.
Proof.
  destruct (Rectangle_fills_then_frames parseHex8 sourceOver8
              (mkToolbox "#ff0000ff" "#0000ffff" 1)
              [mkPoint 2 2; mkPoint 7 3; mkPoint 10 10]
              (uniform 16 16 opaqueRed) (mkPoint 2 2) (mkPoint 10 10))
    as (start & end_ & strips & r & _ & _ & _ & _ & Hr & _ & _ & Hop & _).
  - reflexivity.
  - reflexivity.
  - simpl. lia.
  - destruct Hop as [_ Hcase].
    + intros d. reflexivity.
    + intros d. reflexivity.
    + exists r. split; [exact Hr|].
      rewrite !(Hcase eq_refl eq_refl eq_refl). repeat split.
Defined.

(** C10. With a brush size of at least 1, every one of the five fills of
    the Rectangle tool, the two strips of negative width or height
    anchored at (end.x+1, end.y+1) included, covers only pixels of the
    brush-inflated bounding box [start, end] of the first and last points;
    the tool changes no pixel outside that box. *)
Theorem Rectangle_stays_in_box
  (parseColor : string -> Colord) (blend : string -> Colord -> Colord)
  (st : ToolboxState) (points : list Point)
  (cv : HTMLCanvasElement) (start end_ : Point) :
  getBoundingBoxIncludingBrush points (brushSize st) = Some (start, end_) ->
  1 <= brushSize st ->
  exists fills r,
    Rectangle_fills st points = Some fills
    /\ List.length fills = 5%nat
    /\ In (fgColor st, (x end_ + 1, y end_ + 1,
                        - (x end_ - x start + 1), - brushSize st)) fills
    /\ In (fgColor st, (x end_ + 1, y end_ + 1,
                        - brushSize st, - (y end_ - y start + 1))) fills
    /\ (forall s ox oy w h q,
          In (s, (ox, oy, w, h)) fills -> covers ox oy w h q = true ->
          inBox start end_ q = true)
    /\ Rectangle_use parseColor blend st points cv = Some r
    /\ (forall q, inBox start end_ q = false -> pixels r q = pixels cv q).
Proof.
  intros Hbox Hb.
  destruct (bbox_brush_spec _ _ _ _ Hbox Hb) as [Hx Hy].
  destruct (Rectangle_use_pixels parseColor blend st points cv _ _ Hbox)
    as (fills & r & Hfills & Efills & Hr & _ & _ & Hpix).
  exists fills, r. subst fills.
  split; [exact Hfills|].
  split; [reflexivity|].
  split; [simpl; auto|]. split; [simpl; auto 6|].
  split; [|split; [exact Hr|]].
  - intros s ox oy w h q Hin Hc.
    assert (E1 := cover_box start end_ (brushSize st) Hb Hx Hy q).
    assert (E2 := cover_frame start end_ (brushSize st) Hb Hx Hy q).
    simpl in Hin.
    destruct Hin as [E | [E | [E | [E | [E | []]]]]];
      injection E as <- <- <- <- <-; rewrite Hc in *; simpl in *;
      rewrite ?orb_true_r in *;
      try congruence;
      symmetry in E2; apply andb_true_iff in E2; tauto.
  - intros q Hq. rewrite Hpix.
    destruct (Rectangle_styles st start end_ q Hb Hx Hy) as (S0 & _).
    rewrite (S0 Hq). now destruct (inBounds cv q).
Qed.

Lemma Rectangle_stays_in_box_witness :
  exists fills r,
    Rectangle_fills (mkToolbox "#ff0000ff" "#0000ffff" 3)
                    [mkPoint 4 4; mkPoint 9 8] = Some fills
    /\ List.length fills = 5%nat
    /\ In ("#ff0000ff"%string, (10, 9, - 8, - 3)) fills
    /\ In ("#ff0000ff"%string, (10, 9, - 3, - 7)) fills
    /\ (forall s ox oy w h q,
          In (s, (ox, oy, w, h)) fills -> covers ox oy w h q = true ->
          inBox (mkPoint 2 2) (mkPoint 9 8) q = true)
    /\ Rectangle_use parseHex8 sourceOver8 (mkToolbox "#ff0000ff" "#0000ffff" 3)
                     [mkPoint 4 4; mkPoint 9 8]
                     (uniform 16 16 transparentBlack) = Some r
    /\ (forall q, inBox (mkPoint 2 2) (mkPoint 9 8) q = false ->
                  pixels r q = pixels (uniform 16 16 transparentBlack) q).
Proof.
  apply (Rectangle_stays_in_box parseHex8 sourceOver8
           (mkToolbox "#ff0000ff" "#0000ffff" 3)
           [mkPoint 4 4; mkPoint 9 8] (uniform 16 16 transparentBlack)
           (mkPoint 2 2) (mkPoint 9 8)).
  - reflexivity.
  - simpl. lia.
Defined.

(** ** The Ellipse tool *)

Lemma mirrorX_involutive coords p : mirrorX coords (mirrorX coords p) = p.
Proof. destruct p as [a b]. unfold mirrorX; simpl. f_equal. lia. Qed.

Lemma mirrorY_involutive coords p : mirrorY coords (mirrorY coords p) = p.
Proof. destruct p as [a b]. unfold mirrorY; simpl. f_equal. lia. Qed.

(** The four pixels painted for one quadrant offset are closed under both
    mirrorings, whatever the annulus test decides. *)
Lemma ellipse_pass_mirror test points b fill coords pass p :
  getBoundingBox points = Some coords ->
  ellipse test points b fill = Some pass ->
  In p pass ->
  In (mirrorX coords p) pass /\ In (mirrorY coords p) pass.
Proof.
  intros Hbox Hpass Hp. unfold ellipse in Hpass. rewrite Hbox in Hpass.
  injection Hpass as <-.
  apply in_flat_map in Hp as (i & Hi & Hp).
  apply in_flat_map in Hp as (j & Hj & Hp).
  destruct (test fill b _ _ _ _ i j) eqn:Ht; [|contradiction].
  split; apply in_flat_map; exists i; (split; [assumption|]);
    apply in_flat_map; exists j; (split; [assumption|]);
    rewrite Ht; unfold mirrorX, mirrorY;
    destruct Hp as [<- | [<- | [<- | [<- | []]]]]; cbn [x y];
    [ right; left | left | right; right; right; left | right; right; left
    | right; right; left | right; right; right; left | left | right; left ];
    f_equal; lia.
Qed.

(** C8. For any first and last point, any brush size and whatever the
    annulus test answers, the pixels each pass of the Ellipse tool paints
    (the background fill and the foreground stroke), and so the pixels
    both passes paint together, form a set that is unchanged by the
    horizontal mirroring x -> 2 xC - evenX - x and by the vertical
    mirroring y -> 2 yC - evenY - y. *)
Theorem Ellipse_is_mirror_symmetric
  (test : bool -> Z -> Z -> Z -> Z -> Z -> Z -> Z -> bool)
  (points : list Point) (b : Z) (coords : Box) :
  getBoundingBox points = Some coords ->
  exists bgPass fgPass,
    ellipse test points b true = Some bgPass
    /\ ellipse test points b false = Some fgPass
    /\ forall p,
         (In p bgPass <-> In (mirrorX coords p) bgPass)
         /\ (In p bgPass <-> In (mirrorY coords p) bgPass)
         /\ (In p fgPass <-> In (mirrorX coords p) fgPass)
         /\ (In p fgPass <-> In (mirrorY coords p) fgPass)
         /\ (In p (bgPass ++ fgPass) <-> In (mirrorX coords p) (bgPass ++ fgPass))
         /\ (In p (bgPass ++ fgPass) <-> In (mirrorY coords p) (bgPass ++ fgPass)).
Proof.
  intros Hbox.
  destruct (ellipse test points b true) as [bgPass|] eqn:Hbg.
  2:{ unfold ellipse in Hbg. now rewrite Hbox in Hbg. }
  destruct (ellipse test points b false) as [fgPass|] eqn:Hfg.
  2:{ unfold ellipse in Hfg. now rewrite Hbox in Hfg. }
  exists bgPass, fgPass. split; [reflexivity|]. split; [reflexivity|].
  assert (HX : forall fill pass, ellipse test points b fill = Some pass ->
                 forall p, In p pass <-> In (mirrorX coords p) pass).
  { intros fill pass Hpass p. split; intros Hp.
    - eapply ellipse_pass_mirror; eauto.
    - rewrite <- (mirrorX_involutive coords p).
      eapply ellipse_pass_mirror; eauto. }
  assert (HY : forall fill pass, ellipse test points b fill = Some pass ->
                 forall p, In p pass <-> In (mirrorY coords p) pass).
  { intros fill pass Hpass p. split; intros Hp.
    - eapply ellipse_pass_mirror; eauto.
    - rewrite <- (mirrorY_involutive coords p).
      eapply ellipse_pass_mirror; eauto. }
  intros p. rewrite !in_app_iff.
  rewrite <- (HX _ _ Hbg p), <- (HY _ _ Hbg p), <- (HX _ _ Hfg p),
    <- (HY _ _ Hfg p).
  tauto.
Qed.

Lemma Ellipse_is_mirror_symmetric_witness :
  exists bgPass fgPass,
    ellipse everyOffset [mkPoint 0 0; mkPoint 3 2] 1 true = Some bgPass
    /\ ellipse everyOffset [mkPoint 0 0; mkPoint 3 2] 1 false = Some fgPass
    /\ (In (mkPoint 3 0) bgPass <-> In (mkPoint 0 0) bgPass).
Proof.
  destruct (Ellipse_is_mirror_symmetric everyOffset [mkPoint 0 0; mkPoint 3 2] 1
              (mkBox 0 0 3 2) eq_refl) as (bg & fg & Hbg & Hfg & H).
  exists bg, fg. split; [exact Hbg|]. split; [exact Hfg|].
  exact (proj1 (H (mkPoint 3 0))).
Defined.

(** ** The Move tool *)

Lemma Move_use_pixels points working original first last :
  item points 0 = Some first ->
  item points (len points - 1) = Some last ->
  exists r,
    Move_use points working original = Some r
    /\ width r = width working /\ height r = height working
    /\ forall q, inBounds working q = true ->
         pixels r q
         = if inBounds original
                (mkPoint (x q - (x last - x first)) (y q - (y last - y first)))
           then pixels original
                  (mkPoint (x q - (x last - x first)) (y q - (y last - y first)))
           else transparentBlack.
Proof.
  intros H0 H1. unfold Move_use. rewrite H0, H1.
  eexists. split; [reflexivity|]. split; [reflexivity|]. split; [reflexivity|].
  intros q Hq. cbn.
  assert (Hin : inBounds
            {| width := width working; height := height working;
               pixels := fun p : Point =>
                 if inBounds working p
                    && covers 0 0 (width working) (height working) p
                 then transparentBlack else pixels working p |} q = true)
    by exact Hq.
  rewrite Hin. cbn.
  replace (x q - (0 + (0 + (x last - x first)))) with (x q - (x last - x first))
    by lia.
  replace (y q - (0 + (0 + (y last - y first)))) with (y q - (y last - y first))
    by lia.
  destruct (inBounds original _); [reflexivity|].
  rewrite Hq. cbn.
  replace (covers 0 0 (width working) (height working) q) with true;
    [reflexivity|].
  symmetry. bool_to_prop. lia.
Qed.

(** C9. Moving by (dx, dy) and then, with the result as the new original,
    by (-dx, -dy), on surfaces of one size: at every pixel of the surface
    whose content stayed on the surface in the intermediate step (the
    pixel displaced by (dx, dy) is still inside) the final surface has the
    colour of the first original; the other pixels, whose content was
    clipped, are transparent. *)
Theorem Move_round_trip
  (points1 points2 : list Point) (working1 working2 original : HTMLCanvasElement)
  (first1 last1 first2 last2 : Point) :
  item points1 0 = Some first1 ->
  item points1 (len points1 - 1) = Some last1 ->
  item points2 0 = Some first2 ->
  item points2 (len points2 - 1) = Some last2 ->
  x last2 - x first2 = - (x last1 - x first1) ->
  y last2 - y first2 = - (y last1 - y first1) ->
  width working1 = width original -> height working1 = height original ->
  width working2 = width original -> height working2 = height original ->
  exists r1 r2,
    Move_use points1 working1 original = Some r1
    /\ Move_use points2 working2 r1 = Some r2
    /\ forall q, inBounds original q = true ->
         pixels r2 q
         = if inBounds original (mkPoint (x q + (x last1 - x first1))
                                         (y q + (y last1 - y first1)))
           then pixels original q else transparentBlack.
Proof.
  intros A1 B1 A2 B2 Hdx Hdy W1 H1 W2 H2.
  destruct (Move_use_pixels points1 working1 original first1 last1 A1 B1)
    as (r1 & R1 & Wr1 & Hr1 & P1).
  destruct (Move_use_pixels points2 working2 r1 first2 last2 A2 B2)
    as (r2 & R2 & Wr2 & Hr2 & P2).
  exists r1, r2. split; [exact R1|]. split; [exact R2|].
  assert (Bw1 : forall p, inBounds working1 p = inBounds original p)
    by (intros p; unfold inBounds; now rewrite W1, H1).
  assert (Bw2 : forall p, inBounds working2 p = inBounds original p)
    by (intros p; unfold inBounds; now rewrite W2, H2).
  assert (Br1 : forall p, inBounds r1 p = inBounds original p)
    by (intros p; unfold inBounds; now rewrite Wr1, Hr1, W1, H1).
  intros q Hq. rewrite P2 by now rewrite Bw2.
  rewrite Hdx, Hdy, Br1.
  replace (x q - - (x last1 - x first1)) with (x q + (x last1 - x first1)) by lia.
  replace (y q - - (y last1 - y first1)) with (y q + (y last1 - y first1)) by lia.
  destruct (inBounds original (mkPoint (x q + (x last1 - x first1))
                                       (y q + (y last1 - y first1)))) eqn:Hs;
    [|reflexivity].
  rewrite P1 by now rewrite Bw1. cbn [x y].
  replace (mkPoint (x q + (x last1 - x first1) - (x last1 - x first1))
                   (y q + (y last1 - y first1) - (y last1 - y first1)))
    with q by (destruct q; simpl; f_equal; lia).
  now rewrite Hq.
Qed.

Lemma Move_round_trip_witness :
  exists r1 r2,
    Move_use [mkPoint 1 1; mkPoint 2 1] (uniform 5 5 transparentBlack)
             (bordered opaqueBlue opaqueRed) = Some r1
    /\ Move_use [mkPoint 2 1; mkPoint 1 1] (uniform 5 5 transparentBlack) r1
       = Some r2
    /\ pixels r2 (mkPoint 1 1) = opaqueRed
    /\ pixels r2 (mkPoint 4 1) = transparentBlack.
Proof.
  destruct (Move_round_trip [mkPoint 1 1; mkPoint 2 1] [mkPoint 2 1; mkPoint 1 1]
              (uniform 5 5 transparentBlack) (uniform 5 5 transparentBlack)
              (bordered opaqueBlue opaqueRed)
              (mkPoint 1 1) (mkPoint 2 1) (mkPoint 2 1) (mkPoint 1 1))
    as (r1 & r2 & H1 & H2 & Hpix); try reflexivity.
  exists r1, r2. split; [exact H1|]. split; [exact H2|].
  rewrite !Hpix by reflexivity. split; reflexivity.
Defined.

(** ** First and last point of a sequence *)

Lemma item_first {A : Type} (l : list A) : item l 0 = hd_error l.
Proof. now destruct l. Qed.

Lemma item_last_snoc {A : Type} (l : list A) (a : A) :
  item (l ++ [a]) (len (l ++ [a]) - 1) = Some a.
Proof.
  unfold len. rewrite length_app. simpl.
  replace (Z.of_nat (List.length l + 1) - 1) with (Z.of_nat (List.length l))
    by lia.
  rewrite item_nth, nth_error_app2 by lia.
  now rewrite Nat.sub_diag.
Qed.

Lemma item_last_empty {A : Type} : item (@nil A) (len (@nil A) - 1) = None.
Proof. reflexivity. Qed.

Lemma item_ends_nonempty {A : Type} (l : list A) :
  l <> [] ->
  exists first last, item l 0 = Some first /\ item l (len l - 1) = Some last.
Proof.
  intros Hl. destruct (exists_last Hl) as (l' & a & ->).
  exists (hd a l'), a. split.
  - rewrite item_first. now destruct l'.
  - apply item_last_snoc.
Qed.

Lemma item_rev_first {A : Type} (l : list A) :
  item (List.rev l) 0 = item l (len l - 1).
Proof.
  destruct l as [|b l0] using rev_ind; [reflexivity|].
  rewrite rev_unit, item_last_snoc. reflexivity.
Qed.

Lemma item_rev_last {A : Type} (l : list A) :
  item (List.rev l) (len (List.rev l) - 1) = item l 0.
Proof.
  rewrite <- (item_rev_first (List.rev l)). now rewrite List.rev_involutive.
Qed.

(** ** Empty point sequences *)

(** Move, Rectangle, Ellipse and Eyedropper read a coordinate of
    [points[0]] or [points[points.length - 1]] and do nothing else that can
    fail: they raise exactly when the sequence is empty, and on every
    non-empty sequence they return. *)
Theorem tools_raise_exactly_on_empty_points
  (parseColor : string -> Colord) (blend : string -> Colord -> Colord)
  (test : bool -> Z -> Z -> Z -> Z -> Z -> Z -> Z -> bool)
  (st : ToolboxState) (points : list Point)
  (working original : HTMLCanvasElement) :
  (Move_use points working original = None <-> points = [])
  /\ (Rectangle_use parseColor blend st points working = None <-> points = [])
  /\ (Ellipse_use parseColor blend test st points working = None
      <-> points = [])
  /\ (Eyedropper_use st points working = None <-> points = []).
Proof.
  destruct points as [|p l].
  - repeat split; reflexivity.
  - destruct (item_ends_nonempty (p :: l)) as (first & last & H0 & H1);
      [discriminate|].
    unfold Move_use, Rectangle_use, Rectangle_fills, Ellipse_use, ellipse,
      Eyedropper_use, getBoundingBoxIncludingBrush, getBoundingBox.
    rewrite H0, H1.
    repeat split; try discriminate.
    destruct (String.eqb _ _); discriminate.
Qed.

(** ** The Pen tool *)

Lemma upto_zero_nth (n i : nat) :
  (i < n)%nat -> nth_error (upto 0 (Z.of_nat n - 1)) i = Some (Z.of_nat i).
Proof.
  intros Hi. unfold upto.
  replace (Z.to_nat (Z.of_nat n - 1 - 0 + 1)) with n by lia.
  rewrite nth_error_map.
  assert (Hs : nth_error (seq 0 n) i = Some i).
  { rewrite (nth_error_nth' _ 0%nat) by now rewrite length_seq.
    now rewrite seq_nth. }
  rewrite Hs. reflexivity.
Qed.

Lemma upto_zero_length (n : nat) :
  List.length (upto 0 (Z.of_nat n - 1)) = n.
Proof.
  unfold upto. rewrite length_map, length_seq. lia.
Qed.

(** The Pen tool makes one [drawLine] call per point, in order: the call
    for a point runs from the point before it to the point itself, with
    the foreground colour and the brush size, and the call for the first
    point is the dot at that point. Both ends of every call are points of
    the sequence, so each segment starts where the one before it ended. *)
Theorem Pen_draws_connected_stroke (st : ToolboxState) (points : list Point) :
  List.length (Pen_use st points) = List.length points
  /\ forall i p,
       nth_error points i = Some p ->
       exists q,
         nth_error points (Nat.pred i) = Some q
         /\ nth_error (Pen_use st points) i
            = Some (drawLine (Some q) (Some p) (fgColor st) (brushSize st)).
Proof.
  unfold Pen_use, len. split.
  - now rewrite length_map, upto_zero_length.
  - intros i p Hp.
    assert (Hi : (i < List.length points)%nat)
      by (apply nth_error_Some; congruence).
    destruct (nth_error points (Nat.pred i)) as [q|] eqn:Hq.
    2:{ apply nth_error_None in Hq. lia. }
    exists q. split; [reflexivity|].
    rewrite nth_error_map, (upto_zero_nth _ _ Hi). cbn [option_map].
    rewrite item_nth, Hp. f_equal. f_equal.
    destruct i as [|j]; simpl Nat.pred in Hq.
    + simpl. now rewrite <- item_nth in Hq.
    + replace (if Z.of_nat (S j) =? 0 then 0 else Z.of_nat (S j) - 1)
        with (Z.of_nat j).
      * now rewrite item_nth.
      * destruct (Z.of_nat (S j) =? 0) eqn:E; [apply Z.eqb_eq in E|]; lia.
Qed.

Lemma Pen_draws_connected_stroke_witness :
  nth_error (Pen_use (mkToolbox "#000000ff" "#ffffffff" 2)
                     [mkPoint 0 0; mkPoint 3 1; mkPoint 4 4]) 2
  = Some (drawLine (Some (mkPoint 3 1)) (Some (mkPoint 4 4)) "#000000ff" 2).
Proof.
  destruct (proj2 (Pen_draws_connected_stroke
                     (mkToolbox "#000000ff" "#ffffffff" 2)
                     [mkPoint 0 0; mkPoint 3 1; mkPoint 4 4])
                  2%nat (mkPoint 4 4) eq_refl) as (q & Hq & H).
  simpl in Hq. injection Hq as <-. exact H.
Defined.

(** ** Bounding boxes *)

(** The bounding box of a non-empty sequence has its corners in order,
    contains the first and the last point, and each of its sides passes
    through one of the two; the points in between play no part. *)
Theorem getBoundingBox_is_tight (points : list Point) (first last : Point) :
  item points 0 = Some first ->
  item points (len points - 1) = Some last ->
  exists coords,
    getBoundingBox points = Some coords
    /\ x0 coords <= x1 coords /\ y0 coords <= y1 coords
    /\ inCoords coords first = true /\ inCoords coords last = true
    /\ (x0 coords = x first \/ x0 coords = x last)
    /\ (x1 coords = x first \/ x1 coords = x last)
    /\ (y0 coords = y first \/ y0 coords = y last)
    /\ (y1 coords = y first \/ y1 coords = y last).
Proof.
  intros H0 H1. unfold getBoundingBox. rewrite H0, H1.
  eexists. split; [reflexivity|].
  unfold inCoords, min4, max4. cbn [x0 x1 y0 y1].
  rewrite !andb_true_iff, !Z.leb_le. lia.
Qed.

Lemma getBoundingBox_is_tight_witness :
  exists coords,
    getBoundingBox [mkPoint 7 1; mkPoint 0 0; mkPoint 2 5] = Some coords
    /\ x0 coords <= x1 coords /\ y0 coords <= y1 coords
    /\ inCoords coords (mkPoint 7 1) = true
    /\ inCoords coords (mkPoint 2 5) = true
    /\ (x0 coords = 7 \/ x0 coords = 2)
    /\ (x1 coords = 7 \/ x1 coords = 2)
    /\ (y0 coords = 1 \/ y0 coords = 5)
    /\ (y1 coords = 1 \/ y1 coords = 5).
Proof.
  apply (getBoundingBox_is_tight [mkPoint 7 1; mkPoint 0 0; mkPoint 2 5]
           (mkPoint 7 1) (mkPoint 2 5)); reflexivity.
Defined.

(** For a brush size of at least 1 the brush-inflated box is the plain
    bounding box with its start corner moved by [brushSize - 1] towards
    negative x and y; its end corner is that of the plain box. *)
Theorem brush_box_extends_start
  (points : list Point) (b : Z) (coords : Box) :
  getBoundingBox points = Some coords ->
  1 <= b ->
  getBoundingBoxIncludingBrush points b
  = Some (mkPoint (x0 coords - (b - 1)) (y0 coords - (b - 1)),
          mkPoint (x1 coords) (y1 coords)).
Proof.
  unfold getBoundingBox, getBoundingBoxIncludingBrush.
  destruct (item points 0) as [s|]; [|discriminate].
  destruct (item points (len points - 1)) as [e|]; [|discriminate].
  intros H Hb. injection H as <-. cbn [x0 x1 y0 y1].
  unfold min4, max4. do 2 f_equal; f_equal; lia.
Qed.

Lemma brush_box_extends_start_witness :
  getBoundingBoxIncludingBrush [mkPoint 9 8; mkPoint 4 4] 3
  = Some (mkPoint 2 2, mkPoint 9 8).
Proof.
  refine (brush_box_extends_start [mkPoint 9 8; mkPoint 4 4] 3
            (mkBox 4 4 9 8) eq_refl _).
  lia.
Defined.

Lemma min4_swap a b c d : min4 a b c d = min4 c d a b.
Proof. unfold min4. lia. Qed.

Lemma max4_swap a b c d : max4 a b c d = max4 c d a b.
Proof. unfold max4. lia. Qed.

Lemma getBoundingBox_rev points :
  getBoundingBox (List.rev points) = getBoundingBox points.
Proof.
  unfold getBoundingBox. rewrite item_rev_first, item_rev_last.
  destruct (item points 0) as [s|], (item points (len points - 1)) as [e|];
    try reflexivity.
  f_equal. f_equal; first [apply min4_swap | apply max4_swap].
Qed.

Lemma getBoundingBoxIncludingBrush_rev points b :
  getBoundingBoxIncludingBrush (List.rev points) b
  = getBoundingBoxIncludingBrush points b.
Proof.
  unfold getBoundingBoxIncludingBrush. rewrite item_rev_first, item_rev_last.
  destruct (item points 0) as [s|], (item points (len points - 1)) as [e|];
    try reflexivity.
  f_equal. f_equal; f_equal; first [apply min4_swap | apply max4_swap].
Qed.

(** The shape tools do not care about the direction of the drag: on the
    reversed point sequence the Rectangle tool leaves the same surface and
    each pass of the Ellipse tool paints the same pixels in the same
    order. *)
Theorem shapes_ignore_drag_direction
  (parseColor : string -> Colord) (blend : string -> Colord -> Colord)
  (test : bool -> Z -> Z -> Z -> Z -> Z -> Z -> Z -> bool)
  (st : ToolboxState) (points : list Point) (cv : HTMLCanvasElement)
  (fill : bool) :
  Rectangle_use parseColor blend st (List.rev points) cv
  = Rectangle_use parseColor blend st points cv
  /\ ellipse test (List.rev points) (brushSize st) fill
     = ellipse test points (brushSize st) fill
  /\ Ellipse_use parseColor blend test st (List.rev points) cv
     = Ellipse_use parseColor blend test st points cv.
Proof.
  unfold Rectangle_use, Rectangle_fills, Ellipse_use, ellipse.
  now rewrite getBoundingBoxIncludingBrush_rev, getBoundingBox_rev.
Qed.

(** ** The Ellipse tool on the surface *)

Lemma among_In l q : among l q = true <-> In q l.
Proof.
  unfold among. rewrite existsb_exists. split.
  - intros (p & Hp & E). apply Point_eqb_eq in E. now subst.
  - intros H. exists q. split; [assumption|]. now apply Point_eqb_eq.
Qed.

Lemma occurrences_among l q :
  among l q = negb (Nat.eqb (occurrences l q) 0).
Proof.
  unfold among, occurrences. induction l as [|p l IH]; [reflexivity|].
  cbn [existsb filter]. destruct (Point_eqb q p); [reflexivity|]. exact IH.
Qed.

Lemma iter_shift {A : Type} (f : A -> A) (n : nat) (a : A) :
  Nat.iter n f (f a) = Nat.iter (S n) f a.
Proof.
  induction n as [|n IH]; simpl in *; [reflexivity | now rewrite IH].
Qed.

(** Painting a list of pixels paints each pixel of the surface once for
    every time it occurs in the list. *)
Lemma fillPixels_spec parseColor blend l : forall ctx,
  translation ctx = origin ->
  translation (fillPixels parseColor blend l ctx) = origin
  /\ fillStyle (fillPixels parseColor blend l ctx) = fillStyle ctx
  /\ width (canvas (fillPixels parseColor blend l ctx)) = width (canvas ctx)
  /\ height (canvas (fillPixels parseColor blend l ctx)) = height (canvas ctx)
  /\ forall q, pixels (canvas (fillPixels parseColor blend l ctx)) q
               = if inBounds (canvas ctx) q
                 then Nat.iter (occurrences l q)
                        (paintOver parseColor blend (fillStyle ctx))
                        (pixels (canvas ctx) q)
                 else pixels (canvas ctx) q.
Proof.
  induction l as [|p l IH]; intros ctx Ht.
  - repeat split; auto. intros q. now destruct (inBounds (canvas ctx) q).
  - unfold fillPixels in *. cbn [fold_left].
    set (c1 := fillRect parseColor blend (x p) (y p) 1 1 ctx).
    assert (H1 : translation c1 = origin) by exact Ht.
    destruct (IH c1 H1) as (T & S & W & H & P).
    repeat split; auto.
    intros q. rewrite P. unfold occurrences. cbn [filter].
    fold (occurrences l q).
    change (inBounds (canvas c1) q) with (inBounds (canvas ctx) q).
    change (fillStyle c1) with (fillStyle ctx).
    unfold c1, fillRect; cbn [pixels canvas setPixels].
    rewrite Ht. cbn [x y origin]. rewrite covers_unit.
    destruct (inBounds (canvas ctx) q); [|reflexivity]. cbn [andb].
    destruct (Point_eqb q p); [|reflexivity].
    cbn [List.length]. apply iter_shift.
Qed.

Lemma iter_opaque parseColor blend s n d :
  opaqueStyle parseColor blend s ->
  Nat.iter n (paintOver parseColor blend s) d
  = if Nat.eqb n 0 then d else parseColor s.
Proof.
  intros Hs. destruct n as [|n]; [reflexivity|].
  cbn [Nat.iter nat_rect Nat.eqb]. now apply paintOver_opaque.
Qed.

Lemma rem2_nonneg s : 0 <= s -> Z.rem s 2 = s mod 2.
Proof. intros H. apply Z.rem_mod_nonneg; lia. Qed.

(** When the coordinate sums of the first and last point are not negative
    (as for points on the surface), every pixel either pass of the Ellipse
    tool paints lies in the bounding box of the two points. *)
Theorem ellipse_stays_in_bounding_box
  (test : bool -> Z -> Z -> Z -> Z -> Z -> Z -> Z -> bool)
  (points : list Point) (b : Z) (fill : bool) (coords : Box)
  (pass : list Point) :
  getBoundingBox points = Some coords ->
  0 <= x0 coords + x1 coords ->
  0 <= y0 coords + y1 coords ->
  ellipse test points b fill = Some pass ->
  forall p, In p pass -> inCoords coords p = true.
Proof.
  intros Hbox Hsx Hsy Hpass p Hp.
  assert (Hord : x0 coords <= x1 coords /\ y0 coords <= y1 coords).
  { unfold getBoundingBox in Hbox.
    destruct (item points 0) as [s|]; [|discriminate].
    destruct (item points (len points - 1)) as [e|]; [|discriminate].
    injection Hbox as <-. unfold min4, max4. simpl. lia. }
  unfold ellipse in Hpass. rewrite Hbox in Hpass. injection Hpass as <-.
  apply in_flat_map in Hp as (i & Hi & Hp).
  apply in_flat_map in Hp as (j & Hj & Hp).
  destruct (test _ _ _ _ _ _ _ _); [|contradiction].
  apply upto_In in Hi, Hj.
  rewrite (rem2_nonneg _ Hsx), (rem2_nonneg _ Hsy) in Hp.
  assert (Hx := Z.div_mod (x0 coords + x1 coords) 2 ltac:(lia)).
  assert (Hy := Z.div_mod (y0 coords + y1 coords) 2 ltac:(lia)).
  assert (Hxm := Z.mod_pos_bound (x0 coords + x1 coords) 2 ltac:(lia)).
  assert (Hym := Z.mod_pos_bound (y0 coords + y1 coords) 2 ltac:(lia)).
  assert (Hxc : 2 * ((x0 coords + x1 coords + 1) / 2)
                = x0 coords + x1 coords + (x0 coords + x1 coords) mod 2).
  { assert (Hd := Z.div_mod (x0 coords + x1 coords + 1) 2 ltac:(lia)).
    assert (Hb := Z.mod_pos_bound (x0 coords + x1 coords + 1) 2 ltac:(lia)).
    lia. }
  assert (Hyc : 2 * ((y0 coords + y1 coords + 1) / 2)
                = y0 coords + y1 coords + (y0 coords + y1 coords) mod 2).
  { assert (Hd := Z.div_mod (y0 coords + y1 coords + 1) 2 ltac:(lia)).
    assert (Hb := Z.mod_pos_bound (y0 coords + y1 coords + 1) 2 ltac:(lia)).
    lia. }
  unfold inCoords. rewrite !andb_true_iff, !Z.leb_le.
  destruct Hp as [<- | [<- | [<- | [<- | []]]]]; cbn [x y]; lia.
Qed.

Lemma ellipse_stays_in_bounding_box_witness :
  inCoords (mkBox 0 0 3 2) (mkPoint 0 2) = true.
Proof.
  refine (ellipse_stays_in_bounding_box everyOffset
            [mkPoint 0 0; mkPoint 3 2] 1 true (mkBox 0 0 3 2) _ eq_refl _ _
            eq_refl (mkPoint 0 2) _).
  - simpl. lia.
  - simpl. lia.
  - simpl. auto 20.
Defined.

(** What the Ellipse tool leaves on the surface. *)
Lemma Ellipse_use_pixels parseColor blend test st points cv coords :
  getBoundingBox points = Some coords ->
  exists bgPass fgPass r,
    ellipse test points (brushSize st) true = Some bgPass
    /\ ellipse test points (brushSize st) false = Some fgPass
    /\ Ellipse_use parseColor blend test st points cv = Some r
    /\ width r = width cv /\ height r = height cv
    /\ forall q, pixels r q
         = if inBounds cv q
           then Nat.iter (occurrences fgPass q)
                  (paintOver parseColor blend (fgColor st))
                  (Nat.iter (occurrences bgPass q)
                     (paintOver parseColor blend (bgColor st)) (pixels cv q))
           else pixels cv q.
Proof.
  intros Hbox. unfold Ellipse_use.
  destruct (ellipse test points (brushSize st) true) as [bgPass|] eqn:Hbg.
  2:{ unfold ellipse in Hbg. now rewrite Hbox in Hbg. }
  destruct (ellipse test points (brushSize st) false) as [fgPass|] eqn:Hfg.
  2:{ unfold ellipse in Hfg. now rewrite Hbox in Hfg. }
  exists bgPass, fgPass. eexists.
  split; [reflexivity|]. split; [reflexivity|]. split; [reflexivity|].
  set (c0 := setFillStyle (bgColor st) (getContext cv)).
  destruct (fillPixels_spec parseColor blend bgPass c0 eq_refl)
    as (T1 & S1 & W1 & H1 & P1).
  set (c1 := fillPixels parseColor blend bgPass c0) in *.
  set (c2 := setFillStyle (fgColor st) c1).
  assert (T2 : translation c2 = origin) by exact T1.
  destruct (fillPixels_spec parseColor blend fgPass c2 T2)
    as (T3 & S3 & W3 & H3 & P3).
  split; [now rewrite W3|]. split; [now rewrite H3|].
  intros q. rewrite P3.
  change (canvas c2) with (canvas c1). change (fillStyle c2) with (fgColor st).
  rewrite P1.
  assert (B : inBounds (canvas c1) q = inBounds cv q)
    by (unfold inBounds; now rewrite W1, H1).
  rewrite B. change (canvas c0) with cv.
  now destruct (inBounds cv q).
Qed.

Lemma Ellipse_use_opaque parseColor blend test st points cv coords :
  getBoundingBox points = Some coords ->
  opaqueStyle parseColor blend (fgColor st) ->
  opaqueStyle parseColor blend (bgColor st) ->
  exists bgPass fgPass r,
    ellipse test points (brushSize st) true = Some bgPass
    /\ ellipse test points (brushSize st) false = Some fgPass
    /\ Ellipse_use parseColor blend test st points cv = Some r
    /\ width r = width cv /\ height r = height cv
    /\ forall q, pixels r q
         = if inBounds cv q && among fgPass q then parseColor (fgColor st)
           else if inBounds cv q && among bgPass q then parseColor (bgColor st)
           else pixels cv q.
Proof.
  intros Hbox Ofg Obg.
  destruct (Ellipse_use_pixels parseColor blend test st points cv coords Hbox)
    as (bg & fg & r & Hbg & Hfg & Hr & W & H & P).
  exists bg, fg, r. repeat (split; [assumption|]).
  intros q. rewrite P, !occurrences_among.
  rewrite (iter_opaque parseColor blend _ _ _ Ofg),
    (iter_opaque parseColor blend _ _ _ Obg).
  destruct (inBounds cv q); [|reflexivity]. cbn [andb].
  destruct (Nat.eqb (occurrences fg q) 0), (Nat.eqb (occurrences bg q) 0);
    reflexivity.
Qed.

(** On the surface the Ellipse tool paints each pixel with the background
    colour once for every time its fill pass lists it and then with the
    foreground colour once for every time its stroke pass lists it, each
    paint composited over what is there; pixels neither pass lists, and
    positions off the surface, stay as they were and the surface keeps its
    size. When both colours are opaque, the pixels of the stroke pass end
    in the foreground colour and the other pixels of the fill pass in the
    background colour. *)
Theorem Ellipse_use_layers
  (parseColor : string -> Colord) (blend : string -> Colord -> Colord)
  (test : bool -> Z -> Z -> Z -> Z -> Z -> Z -> Z -> bool)
  (st : ToolboxState) (points : list Point) (cv : HTMLCanvasElement)
  (coords : Box) :
  getBoundingBox points = Some coords ->
  exists bgPass fgPass r,
    ellipse test points (brushSize st) true = Some bgPass
    /\ ellipse test points (brushSize st) false = Some fgPass
    /\ Ellipse_use parseColor blend test st points cv = Some r
    /\ width r = width cv /\ height r = height cv
    /\ (forall q, pixels r q
          = if inBounds cv q
            then Nat.iter (occurrences fgPass q)
                   (paintOver parseColor blend (fgColor st))
                   (Nat.iter (occurrences bgPass q)
                      (paintOver parseColor blend (bgColor st)) (pixels cv q))
            else pixels cv q)
    /\ (opaqueStyle parseColor blend (fgColor st) ->
        opaqueStyle parseColor blend (bgColor st) ->
        forall q, pixels r q
          = if inBounds cv q && among fgPass q then parseColor (fgColor st)
            else if inBounds cv q && among bgPass q then parseColor (bgColor st)
            else pixels cv q).
Proof.
  intros Hbox.
  destruct (Ellipse_use_pixels parseColor blend test st points cv coords Hbox)
    as (bg & fg & r & Hbg & Hfg & Hr & W & H & P).
  exists bg, fg, r. repeat (split; [assumption|]).
  intros Ofg Obg.
  destruct (Ellipse_use_opaque parseColor blend test st points cv coords Hbox
              Ofg Obg) as (bg' & fg' & r' & Hbg' & Hfg' & Hr' & _ & _ & P').
  rewrite Hbg in Hbg'. rewrite Hfg in Hfg'. rewrite Hr in Hr'.
  injection Hbg' as <-. injection Hfg' as <-. injection Hr' as <-.
  exact P'.
Qed.

Lemma Ellipse_use_layers_witness :
  exists r,
    Ellipse_use parseHex8 sourceOver8 everyOffset
                (mkToolbox "#ff0000ff" "#0000ff80" 1)
                [mkPoint 0 0; mkPoint 3 2] (uniform 8 8 opaqueRed) = Some r
    /\ pixels r (mkPoint 5 5) = opaqueRed
    /\ pixels r (mkPoint 2 2) = opaqueRed.
Proof.
  destruct (Ellipse_use_layers parseHex8 sourceOver8 everyOffset
              (mkToolbox "#ff0000ff" "#0000ff80" 1) [mkPoint 0 0; mkPoint 3 2]
              (uniform 8 8 opaqueRed) (mkBox 0 0 3 2) eq_refl)
    as (bg & fg & r & Hbg & Hfg & Hr & _ & _ & P & _).
  exists r. split; [exact Hr|].
  injection Hbg as <-. injection Hfg as <-.
  rewrite !P. split; vm_compute; reflexivity.
Defined.

(** ** The Eraser tool *)

Lemma covers_brushSquare b p q :
  0 <= b ->
  covers (x p - b + 1 + 0) (y p - b + 1 + 0) b b q = brushSquare b p q.
Proof.
  intros Hb. apply Bool.eq_iff_eq_true.
  rewrite covers_forward by assumption.
  unfold brushSquare. rewrite !andb_true_iff, !Z.leb_le. lia.
Qed.

Lemma eraser_fold b (Hb : 0 <= b) points : forall ctx,
  translation ctx = origin ->
  let c := fold_left (fun c p => clearRect (x p - b + 1) (y p - b + 1) b b c)
                     points ctx in
  width (canvas c) = width (canvas ctx)
  /\ height (canvas c) = height (canvas ctx)
  /\ forall q, pixels (canvas c) q
               = if inBounds (canvas ctx) q
                    && existsb (fun p => brushSquare b p q) points
                 then transparentBlack else pixels (canvas ctx) q.
Proof.
  induction points as [|p l IH]; intros ctx Ht.
  - repeat split. intros q. now rewrite andb_false_r.
  - cbn [fold_left].
    set (c1 := clearRect (x p - b + 1) (y p - b + 1) b b ctx).
    assert (H1 : translation c1 = origin) by exact Ht.
    destruct (IH c1 H1) as (W & H & P).
    repeat split; auto.
    intros q. cbv zeta in P. rewrite P. cbn [existsb].
    change (inBounds (canvas c1) q) with (inBounds (canvas ctx) q).
    unfold c1, clearRect; cbn [pixels canvas setPixels].
    rewrite Ht. cbn [x y origin]. rewrite (covers_brushSquare b p q Hb).
    destruct (inBounds (canvas ctx) q), (brushSquare b p q),
      (existsb (fun p0 => brushSquare b p0 q) l); reflexivity.
Qed.

(** With a brush size that is not negative, the Eraser tool makes
    transparent exactly the pixels of the surface that lie in the square of
    side [brushSize] whose bottom-right pixel is one of the points; every
    other pixel keeps its colour and the surface keeps its size. Nothing is
    erased between two points, and erasing the same points again changes
    nothing more. *)
Theorem Eraser_clears_brush_squares
  (st : ToolboxState) (points : list Point) (cv : HTMLCanvasElement) :
  0 <= brushSize st ->
  width (Eraser_use st points cv) = width cv
  /\ height (Eraser_use st points cv) = height cv
  /\ (forall q, pixels (Eraser_use st points cv) q
        = if inBounds cv q
             && existsb (fun p => brushSquare (brushSize st) p q) points
          then transparentBlack else pixels cv q)
  /\ (forall q, pixels (Eraser_use st points (Eraser_use st points cv)) q
                = pixels (Eraser_use st points cv) q).
Proof.
  intros Hb.
  assert (Hone : forall c,
            width (Eraser_use st points c) = width c
            /\ height (Eraser_use st points c) = height c
            /\ forall q, pixels (Eraser_use st points c) q
                 = if inBounds c q
                      && existsb (fun p => brushSquare (brushSize st) p q) points
                   then transparentBlack else pixels c q).
  { intros c. unfold Eraser_use.
    exact (eraser_fold (brushSize st) Hb points (getContext c) eq_refl). }
  destruct (Hone cv) as (W & H & P).
  destruct (Hone (Eraser_use st points cv)) as (_ & _ & P').
  repeat split; auto.
  intros q. rewrite P', P.
  assert (B : inBounds (Eraser_use st points cv) q = inBounds cv q)
    by (unfold inBounds; now rewrite W, H).
  rewrite B.
  now destruct (inBounds cv q
                && existsb (fun p => brushSquare (brushSize st) p q) points).
Qed.

Lemma Eraser_clears_brush_squares_witness :
  pixels (Eraser_use (mkToolbox "#000000ff" "#ffffffff" 2)
                     [mkPoint 1 1; mkPoint 4 1] (uniform 6 3 opaqueRed))
         (mkPoint 0 0) = transparentBlack
  /\ pixels (Eraser_use (mkToolbox "#000000ff" "#ffffffff" 2)
                        [mkPoint 1 1; mkPoint 4 1] (uniform 6 3 opaqueRed))
            (mkPoint 2 1) = opaqueRed.
Proof.
  destruct (Eraser_clears_brush_squares (mkToolbox "#000000ff" "#ffffffff" 2)
              [mkPoint 1 1; mkPoint 4 1] (uniform 6 3 opaqueRed))
    as (_ & _ & P & _).
  - simpl. lia.
  - rewrite !P. split; reflexivity.
Defined.

(** ** The Move tool, further *)

(** The Move tool rebuilds the working surface from the original alone:
    the surface keeps its size, every pixel of it takes the colour the
    original has at the position moved back by the net displacement, or
    becomes transparent when that position is off the original, and what
    the working surface held before has no influence. *)
Theorem Move_redraws_from_original
  (points : list Point) (working working' original : HTMLCanvasElement)
  (first last : Point) :
  item points 0 = Some first ->
  item points (len points - 1) = Some last ->
  width working' = width working -> height working' = height working ->
  exists r r',
    Move_use points working original = Some r
    /\ Move_use points working' original = Some r'
    /\ width r = width working /\ height r = height working
    /\ forall q, inBounds working q = true ->
         pixels r q = pixels r' q
         /\ pixels r q
            = if inBounds original
                   (movedFrom (x last - x first) (y last - y first) q)
              then pixels original
                     (movedFrom (x last - x first) (y last - y first) q)
              else transparentBlack.
Proof.
  intros H0 H1 W H.
  destruct (Move_use_pixels points working original first last H0 H1)
    as (r & R & Wr & Hr & P).
  destruct (Move_use_pixels points working' original first last H0 H1)
    as (r' & R' & _ & _ & P').
  exists r, r'.
  split; [exact R|]. split; [exact R'|]. split; [exact Wr|]. split; [exact Hr|].
  intros q Hq. split.
  - rewrite P by assumption. rewrite P'; [reflexivity|].
    unfold inBounds in *. now rewrite W, H.
  - now apply P.
Qed.

Lemma Move_redraws_from_original_witness :
  exists r r',
    Move_use [mkPoint 0 0; mkPoint 1 2] (uniform 5 5 opaqueRed)
             (bordered opaqueBlue opaqueRed) = Some r
    /\ Move_use [mkPoint 0 0; mkPoint 1 2] (uniform 5 5 transparentBlack)
                (bordered opaqueBlue opaqueRed) = Some r'
    /\ pixels r (mkPoint 0 0) = transparentBlack
    /\ pixels r (mkPoint 1 2) = opaqueBlue
    /\ pixels r (mkPoint 2 3) = pixels r' (mkPoint 2 3).
Proof.
  destruct (Move_redraws_from_original [mkPoint 0 0; mkPoint 1 2]
              (uniform 5 5 opaqueRed) (uniform 5 5 transparentBlack)
              (bordered opaqueBlue opaqueRed) (mkPoint 0 0) (mkPoint 1 2))
    as (r & r' & R & R' & _ & _ & P); try reflexivity.
  exists r, r'. split; [exact R|]. split; [exact R'|].
  split; [|split].
  - now rewrite (proj2 (P (mkPoint 0 0) eq_refl)).
  - now rewrite (proj2 (P (mkPoint 1 2) eq_refl)).
  - exact (proj1 (P (mkPoint 2 3) eq_refl)).
Defined.

(** A Move whose first and last point coincide (a single point, or a drag
    that came back) copies the original: on surfaces of one size every
    pixel of the working surface gets the original's colour. *)
Theorem Move_without_displacement_copies
  (points : list Point) (working original : HTMLCanvasElement)
  (first last : Point) :
  item points 0 = Some first ->
  item points (len points - 1) = Some last ->
  first = last ->
  width working = width original -> height working = height original ->
  exists r,
    Move_use points working original = Some r
    /\ forall q, inBounds original q = true -> pixels r q = pixels original q.
Proof.
  intros H0 H1 E W H.
  destruct (Move_use_pixels points working original first last H0 H1)
    as (r & R & _ & _ & P).
  exists r. split; [exact R|].
  intros q Hq. rewrite P by (unfold inBounds in *; now rewrite W, H).
  subst last.
  replace (mkPoint (x q - (x first - x first)) (y q - (y first - y first)))
    with q by (destruct q; simpl; f_equal; lia).
  now rewrite Hq.
Qed.

Lemma Move_without_displacement_copies_witness :
  exists r,
    Move_use [mkPoint 3 3] (uniform 5 5 transparentBlack)
             (bordered opaqueBlue opaqueRed) = Some r
    /\ forall q, inBounds (bordered opaqueBlue opaqueRed) q = true ->
                 pixels r q = pixels (bordered opaqueBlue opaqueRed) q.
Proof.
  apply (Move_without_displacement_copies [mkPoint 3 3]
           (uniform 5 5 transparentBlack) (bordered opaqueBlue opaqueRed)
           (mkPoint 3 3) (mkPoint 3 3)); reflexivity.
Defined.

(** Two Moves in a row, the second taking the result of the first as its
    original, on surfaces of one size: a pixel shows the original's colour
    moved by the sum of the two displacements when both the position one
    step back and the position two steps back are on the surface, and is
    transparent otherwise. Content that left the surface in the first step
    does not come back. *)
Theorem Move_twice_adds_displacements
  (points1 points2 : list Point) (working1 working2 original : HTMLCanvasElement)
  (first1 last1 first2 last2 : Point) :
  item points1 0 = Some first1 ->
  item points1 (len points1 - 1) = Some last1 ->
  item points2 0 = Some first2 ->
  item points2 (len points2 - 1) = Some last2 ->
  width working1 = width original -> height working1 = height original ->
  width working2 = width original -> height working2 = height original ->
  exists r1 r2,
    Move_use points1 working1 original = Some r1
    /\ Move_use points2 working2 r1 = Some r2
    /\ forall q, inBounds original q = true ->
         let back1 := movedFrom (x last2 - x first2) (y last2 - y first2) q in
         let back2 := movedFrom (x last1 - x first1 + (x last2 - x first2))
                                (y last1 - y first1 + (y last2 - y first2)) q in
         pixels r2 q
         = if inBounds original back1 && inBounds original back2
           then pixels original back2 else transparentBlack.
Proof.
  intros A1 B1 A2 B2 W1 H1 W2 H2.
  destruct (Move_use_pixels points1 working1 original first1 last1 A1 B1)
    as (r1 & R1 & Wr1 & Hr1 & P1).
  destruct (Move_use_pixels points2 working2 r1 first2 last2 A2 B2)
    as (r2 & R2 & _ & _ & P2).
  exists r1, r2. split; [exact R1|]. split; [exact R2|].
  assert (Bw1 : forall p, inBounds working1 p = inBounds original p)
    by (intros p; unfold inBounds; now rewrite W1, H1).
  assert (Bw2 : forall p, inBounds working2 p = inBounds original p)
    by (intros p; unfold inBounds; now rewrite W2, H2).
  assert (Br1 : forall p, inBounds r1 p = inBounds original p)
    by (intros p; unfold inBounds; now rewrite Wr1, Hr1, W1, H1).
  intros q Hq back1 back2. rewrite P2 by now rewrite Bw2.
  fold (movedFrom (x last2 - x first2) (y last2 - y first2) q). fold back1.
  rewrite Br1.
  destruct (inBounds original back1) eqn:Hb1; [|reflexivity].
  rewrite P1 by now rewrite Bw1. cbn [andb].
  replace (mkPoint (x back1 - (x last1 - x first1))
                   (y back1 - (y last1 - y first1))) with back2;
    [reflexivity|].
  unfold back1, back2, movedFrom. cbn [x y]. f_equal; lia.
Qed.

Lemma Move_twice_adds_displacements_witness :
  exists r1 r2,
    Move_use [mkPoint 0 0; mkPoint 1 0] (uniform 5 5 transparentBlack)
             (bordered opaqueBlue opaqueRed) = Some r1
    /\ Move_use [mkPoint 0 0; mkPoint 1 1] (uniform 5 5 transparentBlack) r1
       = Some r2
    /\ pixels r2 (mkPoint 3 2) = opaqueRed
    /\ pixels r2 (mkPoint 1 1) = transparentBlack.
Proof.
  destruct (Move_twice_adds_displacements
              [mkPoint 0 0; mkPoint 1 0] [mkPoint 0 0; mkPoint 1 1]
              (uniform 5 5 transparentBlack) (uniform 5 5 transparentBlack)
              (bordered opaqueBlue opaqueRed)
              (mkPoint 0 0) (mkPoint 1 0) (mkPoint 0 0) (mkPoint 1 1))
    as (r1 & r2 & R1 & R2 & P); try reflexivity.
  exists r1, r2. split; [exact R1|]. split; [exact R2|].
  split.
  - now rewrite (P (mkPoint 3 2) eq_refl).
  - now rewrite (P (mkPoint 1 1) eq_refl).
Defined.

(** ** The Eyedropper tool, further *)

Lemma Eyedropper_use_eq st points cv p :
  item points (len points - 1) = Some p ->
  Eyedropper_use st points cv
  = Some (if isEqual (getImageData (x p) (y p) (getContext cv)) transparentBlack
          then st
          else setFgColor (hexText (getImageData (x p) (y p) (getContext cv))) st).
Proof.
  intros Hlast. unfold Eyedropper_use. rewrite Hlast.
  set (data := getImageData (x p) (y p) (getContext cv)).
  cbn [map String.concat]. rewrite !padStart_twoHexDigits.
  change (twoHexDigits (red data) ++ "" ++ twoHexDigits (green data) ++ ""
          ++ twoHexDigits (blue data) ++ "" ++ twoHexDigits (alpha data))%string
    with (twoHexDigits (red data) ++ twoHexDigits (green data)
          ++ twoHexDigits (blue data) ++ twoHexDigits (alpha data))%string.
  rewrite eqb_four_pairs, !twoHexDigits_zero.
  change (Byte.eqb (red data) x00 && Byte.eqb (green data) x00
          && Byte.eqb (blue data) x00 && Byte.eqb (alpha data) x00)
    with (isEqual data transparentBlack).
  now destruct (isEqual data transparentBlack).
Qed.

Lemma hexByte_twoHexDigits (i : byte) :
  hexByte (hexDigit (Byte.to_N i / 16)) (hexDigit (Byte.to_N i mod 16)) = Some i.
Proof. destruct i; reflexivity. Qed.

Lemma parseHex8_hexText (d : Colord) : parseHex8 (hexText d) = d.
Proof.
  destruct d as [r g b a]. unfold hexText, twoHexDigits.
  cbn [red green blue alpha append parseHex8].
  now rewrite !hexByte_twoHexDigits.
Qed.

(** The Eyedropper tool never touches the background colour or the brush
    size, and a last point off the surface samples transparent black, so
    the whole configuration stays as it was. *)
Theorem Eyedropper_keeps_rest_of_configuration
  (st : ToolboxState) (points : list Point) (cv : HTMLCanvasElement)
  (lastPoint : Point) :
  item points (len points - 1) = Some lastPoint ->
  (exists st', Eyedropper_use st points cv = Some st'
               /\ bgColor st' = bgColor st /\ brushSize st' = brushSize st)
  /\ (inBounds cv lastPoint = false -> Eyedropper_use st points cv = Some st).
Proof.
  intros Hlast. rewrite (Eyedropper_use_eq st points cv lastPoint Hlast). split.
  - eexists. split; [reflexivity|].
    now destruct (isEqual _ transparentBlack).
  - intros Hout. unfold getImageData.
    change (canvas (getContext cv)) with cv.
    destruct lastPoint as [a b]. cbn [x y]. now rewrite Hout.
Qed.

Lemma Eyedropper_keeps_rest_of_configuration_witness :
  Eyedropper_use (mkToolbox "#000000ff" "#ffffffff" 3) [mkPoint 0 0; mkPoint 7 0]
                 (uniform 2 1 opaqueRed)
  = Some (mkToolbox "#000000ff" "#ffffffff" 3).
Proof.
  refine (proj2 (Eyedropper_keeps_rest_of_configuration
                   (mkToolbox "#000000ff" "#ffffffff" 3)
                   [mkPoint 0 0; mkPoint 7 0] (uniform 2 1 opaqueRed)
                   (mkPoint 7 0) _) _); reflexivity.
Defined.

(** The foreground text the Eyedropper tool writes identifies the colour:
    two picks of pixels that are not transparent black which leave the same
    foreground text sampled the same four channels. *)
Theorem Eyedropper_text_identifies_colour
  (st st' r r' : ToolboxState) (points points' : list Point)
  (cv cv' : HTMLCanvasElement) (p p' : Point) :
  item points (len points - 1) = Some p ->
  item points' (len points' - 1) = Some p' ->
  getImageData (x p) (y p) (getContext cv) <> transparentBlack ->
  getImageData (x p') (y p') (getContext cv') <> transparentBlack ->
  Eyedropper_use st points cv = Some r ->
  Eyedropper_use st' points' cv' = Some r' ->
  fgColor r = fgColor r' ->
  getImageData (x p) (y p) (getContext cv)
  = getImageData (x p') (y p') (getContext cv').
Proof.
  intros Hp Hp' Hd Hd' Hr Hr' Hfg.
  rewrite (Eyedropper_use_eq _ _ _ _ Hp) in Hr.
  rewrite (Eyedropper_use_eq _ _ _ _ Hp') in Hr'.
  rewrite (proj2 (isEqual_neq _ _) Hd) in Hr.
  rewrite (proj2 (isEqual_neq _ _) Hd') in Hr'.
  injection Hr as <-. injection Hr' as <-. cbn [fgColor setFgColor] in Hfg.
  rewrite <- (parseHex8_hexText (getImageData (x p) (y p) (getContext cv))).
  rewrite Hfg. apply parseHex8_hexText.
Qed.

Lemma Eyedropper_text_identifies_colour_witness :
  getImageData 1 0 (getContext (uniform 2 1 opaqueRed))
  = getImageData 0 0 (getContext (uniform 1 1 opaqueRed)).
Proof.
  refine (Eyedropper_text_identifies_colour
            (mkToolbox "#000000ff" "#ffffffff" 3)
            (mkToolbox "#0000ffff" "#ffffffff" 1)
            (mkToolbox "#ff0000ff" "#ffffffff" 3)
            (mkToolbox "#ff0000ff" "#ffffffff" 1)
            [mkPoint 0 0; mkPoint 1 0] [mkPoint 0 0]
            (uniform 2 1 opaqueRed) (uniform 1 1 opaqueRed)
            (mkPoint 1 0) (mkPoint 0 0) _ _ _ _ _ _ _);
    try reflexivity; vm_compute; discriminate.
Defined.

(** ** The Bucket tool, further *)

(** When the foreground colour differs from the colour of a seed on the
    surface and the stack is deeper than the number of pixels of that
    colour, the Bucket tool returns having given the foreground colour to
    every pixel of the 4-connected region of the seed and to no other
    pixel; the surface keeps its size. *)
Theorem Bucket_fills_exactly_the_region
  (parseColor : string -> Colord) (blend : string -> Colord -> Colord)
  (st : ToolboxState) (points : list Point)
  (cv : HTMLCanvasElement) (seed : Point) (stack : nat) :
  item points (len points - 1) = Some seed ->
  inBounds cv seed = true ->
  parseColor (fgColor st) <> pixels cv seed ->
  (countColor (pixels cv seed) cv < stack)%nat ->
  exists r,
    Bucket_use parseColor blend stack st points cv = Some r
    /\ returned r = true
    /\ width (canvas (final r)) = width cv
    /\ height (canvas (final r)) = height cv
    /\ (forall q, region cv (pixels cv seed) seed q ->
                  pixels (canvas (final r)) q = parseColor (fgColor st))
    /\ (forall q, ~ region cv (pixels cv seed) seed q ->
                  pixels (canvas (final r)) q = pixels cv q).
Proof.
  intros Hlast Hb Hfg Hn. unfold Bucket_use. rewrite Hlast.
  eexists. split; [reflexivity|].
  destruct (bucket_fill_correct parseColor blend (fgColor st) cv seed stack Hb Hfg Hn)
    as (Hret & _ & Hreg & Hpaint & Hrest & W & H).
  repeat split; auto.
  - intros q Hq. apply Hpaint. now apply Hreg.
  - intros q Hq. apply Hrest. now rewrite Hreg.
Qed.

Lemma Bucket_fills_exactly_the_region_witness :
  exists r,
    Bucket_use parseHex8 sourceOver8 5 (mkToolbox "#0000ffff" "#00000000" 1) [mkPoint 1 1]
               (uniform 2 2 opaqueRed) = Some r
    /\ returned r = true
    /\ width (canvas (final r)) = 2
    /\ height (canvas (final r)) = 2
    /\ (forall q, region (uniform 2 2 opaqueRed) opaqueRed (mkPoint 1 1) q ->
                  pixels (canvas (final r)) q = parseHex8 "#0000ffff")
    /\ (forall q, ~ region (uniform 2 2 opaqueRed) opaqueRed (mkPoint 1 1) q ->
                  pixels (canvas (final r)) q = pixels (uniform 2 2 opaqueRed) q).
Proof.
  apply (Bucket_fills_exactly_the_region parseHex8 sourceOver8
           (mkToolbox "#0000ffff" "#00000000" 1) [mkPoint 1 1]
           (uniform 2 2 opaqueRed) (mkPoint 1 1) 5).
  - reflexivity.
  - reflexivity.
  - vm_compute. discriminate.
  - vm_compute. lia.
Defined.

(** Whatever the colours and however the run ends, the flood fill of the
    Bucket tool keeps the size of the surface and its fill style, and
    every pixel either keeps its colour or is a pixel of the surface that
    now has the foreground colour: it never writes any other colour and
    never writes off the surface. *)
Theorem floodFill_writes_only_foreground
  (parseColor : string -> Colord) (blend : string -> Colord -> Colord)
  (fg : string) (cv : HTMLCanvasElement)
  (seed : Point) (stack : nat) :
  let r := floodFill parseColor blend stack (bucketContext fg cv) seed None in
  width (canvas (final r)) = width cv
  /\ height (canvas (final r)) = height cv
  /\ fillStyle (final r) = fg
  /\ forall q, pixels (canvas (final r)) q = pixels cv q
               \/ (inBounds cv q = true
                   /\ pixels (canvas (final r)) q = parseColor fg).
Proof.
  intros r.
  set (I := fun c : CanvasRenderingContext2D =>
              translation c = origin /\ fillStyle c = fg
              /\ width (canvas c) = width cv /\ height (canvas c) = height cv
              /\ forall q, pixels (canvas c) q = pixels cv q
                           \/ (inBounds cv q = true
                               /\ pixels (canvas c) q = parseColor fg)).
  assert (Hend : I (final r)).
  { apply (floodFill_top_inv parseColor blend I).
    - intros c p (Ht & Hs & Hw & Hh & Hpix) _ _.
      destruct (repaint_spec parseColor blend c p Ht) as [(Hw' & Hh' & Hs' & Ht') Hp'].
      unfold I. repeat split; try congruence.
      intros q. rewrite Hp'.
      destruct (inBounds (canvas c) q && Point_eqb q p) eqn:E; [|apply Hpix].
      right. apply andb_true_iff in E as [E _].
      split; [|now rewrite Hs].
      unfold inBounds in *. now rewrite <- Hw, <- Hh.
    - unfold I. repeat split. intros q. now left. }
  destruct Hend as (_ & Hs & Hw & Hh & Hpix). auto.
Qed.

Lemma andThen_blocked r k :
  returned r = true ->
  final (k (final r)) = final r -> returned (k (final r)) = true ->
  final (r ;; k) = final r /\ returned (r ;; k) = true.
Proof.
  intros Hr Hf Hk. rewrite andThen_final, andThen_returned, Hr, Hk by assumption.
  auto.
Qed.

Lemma floodFill_blocked parseColor blend n c q col :
  (inBounds (canvas c) q = true -> pixels (canvas c) q <> col) ->
  final (floodFill parseColor blend (S n) c q (Some col)) = c
  /\ returned (floodFill parseColor blend (S n) c q (Some col)) = true.
Proof.
  intros H. cbn [floodFill].
  destruct (inCanvas q c) eqn:Hin; cbn [negb]; [|auto].
  rewrite (getPixelColor_inCanvas _ _ Hin).
  rewrite inCanvas_inBounds in Hin.
  rewrite (proj2 (isEqual_neq _ _) (H Hin)). auto.
Qed.

(** A seed on the surface that already has the foreground colour: the
    flood fill of the Bucket tool returns for some stack depth exactly when
    no neighbour of the seed on the surface has that colour too; it then
    returns with a stack of depth two, and no pixel has changed. *)
Theorem same_colour_fill_returns_iff_isolated
  (parseColor : string -> Colord) (blend : string -> Colord -> Colord)
  (fg : string) (cv : HTMLCanvasElement)
  (seed : Point) :
  inBounds cv seed = true ->
  pixels cv seed = parseColor fg ->
  ((exists stack,
      returned (floodFill parseColor blend stack (bucketContext fg cv) seed None) = true)
   <-> (forall q, In q (neighbours seed) -> inBounds cv q = true ->
                  pixels cv q <> parseColor fg))
  /\ ((forall q, In q (neighbours seed) -> inBounds cv q = true ->
                 pixels cv q <> parseColor fg) ->
      let r := floodFill parseColor blend 2 (bucketContext fg cv) seed None in
      returned r = true
      /\ forall q, pixels (canvas (final r)) q = pixels cv q).
Proof.
  intros Hb Hc.
  assert (Hiso : (forall q, In q (neighbours seed) -> inBounds cv q = true ->
                            pixels cv q <> parseColor fg) ->
                 let r := floodFill parseColor blend 2 (bucketContext fg cv) seed None in
                 returned r = true
                 /\ forall q, pixels (canvas (final r)) q = pixels cv q).
  { intros Hn r. subst r. cbn [floodFill].
    set (ctx := bucketContext fg cv).
    assert (Hin : inCanvas seed ctx = true) by now rewrite inCanvas_inBounds.
    rewrite Hin, (getPixelColor_inCanvas _ _ Hin). cbn [negb].
    change (pixels (canvas ctx) seed) with (pixels cv seed). rewrite Hc.
    destruct (repaint_spec parseColor blend ctx seed eq_refl) as [Hf Hpix].
    set (c1 := paintPixel parseColor blend seed (erasePixel seed ctx)) in *.
    assert (Hsame : forall q, pixels (canvas c1) q = pixels cv q).
    { intros q. rewrite Hpix. change (canvas ctx) with cv.
      destruct (inBounds cv q && Point_eqb q seed) eqn:E; [|reflexivity].
      apply andb_true_iff in E as [_ E]. apply Point_eqb_eq in E. subst q.
      now rewrite Hc. }
    assert (Hblock : forall q, In q (neighbours seed) ->
              final (floodFill parseColor blend 1 c1 q (Some (parseColor fg))) = c1
              /\ returned (floodFill parseColor blend 1 c1 q (Some (parseColor fg)))
                 = true).
    { intros q Hq. apply floodFill_blocked. intros Hbq. rewrite Hsame.
      apply Hn; auto. }
    set (r0 := mkRun c1 [mkVisit seed (parseColor fg) None] true).
    destruct (Hblock (leftOf seed)) as [F1 R1]; [simpl; auto|].
    destruct (Hblock (rightOf seed)) as [F2 R2]; [simpl; auto|].
    destruct (Hblock (above seed)) as [F3 R3]; [simpl; auto|].
    destruct (Hblock (below seed)) as [F4 R4]; [simpl; auto 6|].
    match goal with
    | |- returned (r0 ;; ?k1 ;; ?k2 ;; ?k3 ;; ?k4) = true /\ _ =>
        destruct (andThen_blocked r0 k1 eq_refl F1 R1) as [E1 Q1];
        destruct (andThen_blocked (r0 ;; k1) k2 Q1) as [E2 Q2];
          [rewrite E1; exact F2 | rewrite E1; exact R2 |];
        destruct (andThen_blocked (r0 ;; k1 ;; k2) k3 Q2) as [E3 Q3];
          [rewrite E2, E1; exact F3 | rewrite E2, E1; exact R3 |];
        destruct (andThen_blocked (r0 ;; k1 ;; k2 ;; k3) k4 Q3) as [E4 Q4];
          [rewrite E3, E2, E1; exact F4 | rewrite E3, E2, E1; exact R4 |]
    end.
    split; [exact Q4|].
    intros q. rewrite E4, E3, E2, E1. apply Hsame. }
  split; [|exact Hiso]. split.
  - intros [stack Hret] q Hq Hbq Hcq.
    rewrite (Bucket_same_colour_diverges parseColor blend fg cv seed q stack) in Hret;
      auto. discriminate.
  - intros Hn. exists 2%nat. apply (Hiso Hn).
Qed.

Lemma same_colour_fill_returns_iff_isolated_witness :
  returned (floodFill parseHex8 sourceOver8 2 (bucketContext "#ff0000ff"
              (uniform 1 1 opaqueRed)) (mkPoint 0 0) None) = true
  /\ forall q,
       pixels (canvas (final (floodFill parseHex8 sourceOver8 2
                 (bucketContext "#ff0000ff" (uniform 1 1 opaqueRed))
                 (mkPoint 0 0) None))) q
       = pixels (uniform 1 1 opaqueRed) q.
Proof.
  apply (proj2 (same_colour_fill_returns_iff_isolated parseHex8 sourceOver8 "#ff0000ff"
                  (uniform 1 1 opaqueRed) (mkPoint 0 0) eq_refl eq_refl)).
  intros q Hq Hb. simpl in Hq.
  destruct Hq as [<- | [<- | [<- | [<- | []]]]]; discriminate Hb.
Defined.

Lemma andThen_counts r k a :
  (List.length (visits r) + 4 <= a + 4 * List.length (painted r))%nat ->
  (List.length (visits (k (final r)))
   <= 1 + 4 * List.length (painted (k (final r))))%nat ->
  (List.length (visits (r ;; k)) + 4
   <= S a + 4 * List.length (painted (r ;; k)))%nat.
Proof.
  intros Hr Hk. destruct (returned r) eqn:E.
  - rewrite andThen_painted by assumption.
    unfold andThen. rewrite E. cbn [visits]. rewrite !length_app. lia.
  - rewrite andThen_stopped by assumption. lia.
Qed.

(** The comparisons a flood fill makes are paid for by the pixels it
    repaints: at any stack depth and however the run ends, the number of
    pixels read and compared is at most one more than four times the
    number of pixels repainted. *)
Lemma floodFill_reads parseColor blend stack : forall ctx p sc,
  (List.length (visits (floodFill parseColor blend stack ctx p sc))
   <= 1 + 4 * List.length (painted (floodFill parseColor blend stack ctx p sc)))%nat.
Proof.
  induction stack as [|n IH]; intros ctx p sc; cbn [floodFill].
  - simpl. lia.
  - destruct (inCanvas p ctx); cbn [negb]; [|simpl; lia].
    destruct (match sc with
              | Some c => negb (isEqual (getPixelColor p ctx) c)
              | None => false
              end) eqn:Ecase.
    + cbn [visits List.length]. lia.
    + assert (Hm : matched (mkVisit p (getPixelColor p ctx) sc) = true).
      { unfold matched; cbn [wanted seen]. destruct sc as [c|]; [|reflexivity].
        now apply negb_false_iff in Ecase. }
      set (r0 := mkRun (paintPixel parseColor blend p (erasePixel p ctx))
                       [mkVisit p (getPixelColor p ctx) sc] true).
      assert (H0 : (List.length (visits r0) + 4
                    <= 1 + 4 * List.length (painted r0))%nat).
      { unfold painted, r0. cbn [visits filter]. rewrite Hm. simpl. lia. }
      match goal with
      | |- context [r0 ;; ?k1 ;; ?k2 ;; ?k3 ;; ?k4] =>
          assert (H1 := andThen_counts r0 k1 1 H0 (IH _ _ _));
          assert (H2 := andThen_counts (r0 ;; k1) k2 2 H1 (IH _ _ _));
          assert (H3 := andThen_counts (r0 ;; k1 ;; k2) k3 3 H2 (IH _ _ _));
          assert (H4 := andThen_counts (r0 ;; k1 ;; k2 ;; k3) k4 4 H3 (IH _ _ _))
      end.
      lia.
Qed.

(** The Bucket tool reads at most [1 + 4 n] pixels when it repaints [n];
    when the foreground colour differs from the colour of the seed, [n] is
    at most the number of pixels of the seed colour on the surface. *)
Theorem Bucket_reads_are_bounded
  (parseColor : string -> Colord) (blend : string -> Colord -> Colord)
  (fg : string) (cv : HTMLCanvasElement)
  (seed : Point) (stack : nat) :
  let r := floodFill parseColor blend stack (bucketContext fg cv) seed None in
  (List.length (visits r) <= 1 + 4 * List.length (painted r))%nat
  /\ (inBounds cv seed = true -> parseColor fg <> pixels cv seed ->
      (List.length (painted r) <= countColor (pixels cv seed) cv)%nat).
Proof.
  intros r. split; [apply floodFill_reads|].
  intros Hb Hfg.
  destruct stack as [|n]; [simpl; lia|].
  assert (Hok := floodFill_top_ok parseColor blend n (bucketContext fg cv) seed
                   eq_refl Hb Hfg).
  fold r in Hok. change (canvas (bucketContext fg cv)) with cv in Hok.
  unfold countColor.
  apply NoDup_incl_length; [apply Hok|].
  intros q Hq. destruct (ok_painted _ _ _ _ _ _ Hok q Hq) as (Hbq & Hcq & _).
  apply filter_In. split.
  - now apply allPixels_In.
  - now apply isEqual_eq.
Qed.

Lemma Bucket_reads_are_bounded_witness :
  (List.length (painted (floodFill parseHex8 sourceOver8 3
      (bucketContext "#0000ffff" (uniform 2 2 opaqueRed)) (mkPoint 0 0) None))
   <= countColor (pixels (uniform 2 2 opaqueRed) (mkPoint 0 0))
                 (uniform 2 2 opaqueRed))%nat.
Proof.
  refine (proj2 (Bucket_reads_are_bounded parseHex8 sourceOver8 "#0000ffff"
                   (uniform 2 2 opaqueRed) (mkPoint 0 0) 3) eq_refl _).
  vm_compute. discriminate.
Defined.

(** ** Redrawing a shape *)

(** With opaque foreground and background colours the shape tools
    overwrite: used a second time with the same points on the surface they
    have just left (as happens on every pointer move of a drag that does
    not change the last point), the Rectangle tool, for a brush size of at
    least 1, and the Ellipse tool leave every pixel as the first use left
    it. *)
Theorem shape_tools_are_idempotent
  (parseColor : string -> Colord) (blend : string -> Colord -> Colord)
  (test : bool -> Z -> Z -> Z -> Z -> Z -> Z -> Z -> bool)
  (st : ToolboxState) (points : list Point) (cv : HTMLCanvasElement) :
  points <> [] ->
  opaqueStyle parseColor blend (fgColor st) ->
  opaqueStyle parseColor blend (bgColor st) ->
  (1 <= brushSize st ->
   exists r r2,
     Rectangle_use parseColor blend st points cv = Some r
     /\ Rectangle_use parseColor blend st points r = Some r2
     /\ forall q, pixels r2 q = pixels r q)
  /\ (exists e e2,
        Ellipse_use parseColor blend test st points cv = Some e
        /\ Ellipse_use parseColor blend test st points e = Some e2
        /\ forall q, pixels e2 q = pixels e q).
Proof.
  intros Hne Ofg Obg.
  destruct (item_ends_nonempty points Hne) as (first & last & H0 & H1).
  split.
  - intros Hb.
    pose proof (bbox_brush_ends points (brushSize st) first last H0 H1) as Hbox.
    destruct (Rectangle_use_opaque parseColor blend st points cv _ _ Hbox Hb
                Ofg Obg) as (r & Hr & W & H & P).
    destruct (Rectangle_use_opaque parseColor blend st points r _ _ Hbox Hb
                Ofg Obg) as (r2 & Hr2 & _ & _ & P2).
    exists r, r2. split; [exact Hr|]. split; [exact Hr2|].
    intros q. rewrite P2, P.
    assert (B : inBounds r q = inBounds cv q)
      by (unfold inBounds; now rewrite W, H).
    rewrite B.
    now destruct (inBounds cv q && inBox _ _ q).
  - destruct (getBoundingBox_is_tight points first last H0 H1)
      as (coords & Hbox & _).
    destruct (Ellipse_use_opaque parseColor blend test st points cv coords Hbox
                Ofg Obg) as (bg & fg & e & Hbg & Hfg & He & W & H & P).
    destruct (Ellipse_use_opaque parseColor blend test st points e coords Hbox
                Ofg Obg) as (bg' & fg' & e2 & Hbg' & Hfg' & He2 & _ & _ & P2).
    rewrite Hbg in Hbg'. rewrite Hfg in Hfg'.
    injection Hbg' as <-. injection Hfg' as <-.
    exists e, e2. split; [exact He|]. split; [exact He2|].
    intros q. rewrite P2, P.
    assert (B : inBounds e q = inBounds cv q)
      by (unfold inBounds; now rewrite W, H).
    rewrite B.
    destruct (inBounds cv q && among fg q); [reflexivity|].
    now destruct (inBounds cv q && among bg q).
Qed.

Lemma shape_tools_are_idempotent_witness :
  exists r r2,
    Rectangle_use parseHex8 sourceOver8 (mkToolbox "#ff0000ff" "#0000ffff" 2)
                  [mkPoint 2 2; mkPoint 5 6] (uniform 8 8 opaqueRed)
    = Some r
    /\ Rectangle_use parseHex8 sourceOver8 (mkToolbox "#ff0000ff" "#0000ffff" 2)
                     [mkPoint 2 2; mkPoint 5 6] r = Some r2
    /\ forall q, pixels r2 q = pixels r q.
Proof.
  refine (proj1 (shape_tools_are_idempotent parseHex8 sourceOver8 everyOffset
                   (mkToolbox "#ff0000ff" "#0000ffff" 2)
                   [mkPoint 2 2; mkPoint 5 6] (uniform 8 8 opaqueRed) _ _ _)
                _).
  - discriminate.
  - intros d. reflexivity.
  - intros d. reflexivity.
  - simpl. lia.
Defined.

(** ** Picking a colour and filling with it *)

(** With any colour parser that reads the [#rrggbbaa] text back to its
    four channels: after the Eyedropper tool has picked the colour of a
    pixel that is not transparent black and has a neighbour of the same
    colour on the surface, the Bucket tool used at the same point with the
    new configuration does not return at any stack depth. *)
Theorem Bucket_after_Eyedropper_overflows
  (parseColor : string -> Colord) (blend : string -> Colord -> Colord)
  (st : ToolboxState) (points : list Point)
  (cv : HTMLCanvasElement) (seed q : Point) :
  (forall d, parseColor (hexText d) = d) ->
  item points (len points - 1) = Some seed ->
  inBounds cv seed = true -> inBounds cv q = true ->
  In q (neighbours seed) ->
  pixels cv seed <> transparentBlack ->
  pixels cv q = pixels cv seed ->
  exists st',
    Eyedropper_use st points cv = Some st'
    /\ parseColor (fgColor st') = pixels cv seed
    /\ forall stack, exists r,
         Bucket_use parseColor blend stack st' points cv = Some r
         /\ returned r = false.
Proof.
  intros Hparse Hlast Hb Hbq Hn Hnt Hq.
  rewrite (Eyedropper_use_eq st points cv seed Hlast).
  assert (Hdata : getImageData (x seed) (y seed) (getContext cv) = pixels cv seed).
  { unfold getImageData. change (canvas (getContext cv)) with cv.
    destruct seed as [a b]. cbn [x y]. now rewrite Hb. }
  rewrite Hdata, (proj2 (isEqual_neq _ _) Hnt).
  eexists. split; [reflexivity|].
  cbn [fgColor setFgColor]. split; [apply Hparse|].
  intros stack. unfold Bucket_use. rewrite Hlast. eexists. split; [reflexivity|].
  cbn [fgColor setFgColor].
  apply (Bucket_same_colour_diverges parseColor blend (hexText (pixels cv seed))
           cv seed q stack); rewrite ?Hparse; auto.
Qed.

Lemma Bucket_after_Eyedropper_overflows_witness :
  exists st',
    Eyedropper_use (mkToolbox "#000000ff" "#ffffffff" 1) [mkPoint 0 0]
                   (uniform 2 1 opaqueRed) = Some st'
    /\ parseHex8 (fgColor st') = pixels (uniform 2 1 opaqueRed) (mkPoint 0 0)
    /\ forall stack, exists r,
         Bucket_use parseHex8 sourceOver8 stack st' [mkPoint 0 0] (uniform 2 1 opaqueRed)
         = Some r
         /\ returned r = false.
Proof.
  apply (Bucket_after_Eyedropper_overflows parseHex8 sourceOver8
           (mkToolbox "#000000ff" "#ffffffff" 1) [mkPoint 0 0]
           (uniform 2 1 opaqueRed) (mkPoint 0 0) (mkPoint 1 0)).
  - exact parseHex8_hexText.
  - reflexivity.
  - reflexivity.
  - reflexivity.
  - simpl. auto.
  - discriminate.
  - reflexivity.
Defined.
